(** * Disk analyzer: the directory walker, the size estimator and the
      tree flattener of [analyzer.py], embedded over an explicit model of the
      operating system.

    Every call the program makes into the outside world ([os.listdir],
    [os.path.getsize], [subprocess.run] of [du -sk], ...) is a field of the
    record [OS]; the program's own functions are translated line by line on
    top of it.  Python exceptions are values of [exn]; a function that can
    raise returns a [result].

    The file system is a snapshot: a call answers the same for the same
    path during one scan, but the answers of different calls need not agree
    (a path may be a directory for [os.path.isdir] and fail to list).

    The walker is given twice: first without the progress lines it prints
    ([scan_directory]), then with them and with what else can raise on the
    way ([scan_directory_io]); the two agree when printing goes well and
    the stack has room. *)

From Stdlib Require Import ZArith List String Ascii Bool Lia Permutation Sorted.
From Stdlib Require Import DecimalString.
Import ListNotations.
Local Open Scope string_scope.
Local Open Scope list_scope.
Local Open Scope Z_scope.

Set Warnings "-register-all".

(** ** Exceptions *)

(** The subclasses of [OSError] the program tells apart. *)
Inductive os_error : Type :=
| PermissionError
| FileNotFoundError
| OtherOSError.

(** The exceptions that occur in the modelled functions. *)
Inductive exn : Type :=
| OSError (k : os_error)
| TimeoutExpired
| ValueError
| IndexError.

Inductive result (A : Type) : Type :=
| Ok (a : A)
| Raise (e : exn).
Arguments Ok {A} a.
Arguments Raise {A} e.

(** The outcome of a system call that raises [OSError] only. *)
Inductive os_result (A : Type) : Type :=
| Done (a : A)
| Failed (k : os_error).
Arguments Done {A} a.
Arguments Failed {A} k.

Definition bind {A B : Type} (m : result A) (k : A -> result B) : result B :=
  match m with
  | Ok a => k a
  | Raise e => Raise e
  end.

Notation "x <- m ;; k" := (bind m (fun x => k))
  (at level 61, m at next level, right associativity).

(** [except OSError] *)
Definition is_OSError (e : exn) : bool :=
  match e with
  | OSError _ => true
  | _ => false
  end.

(** [except (subprocess.TimeoutExpired, ValueError, IndexError)] *)
Definition caught_by_du (e : exn) : bool :=
  match e with
  | TimeoutExpired | ValueError | IndexError => true
  | OSError _ => false
  end.

(** ** The operating system and the library calls *)

(** What [subprocess.run(..., capture_output=True, text=True)] returns. *)
Record CompletedProcess : Type := mkCompleted {
  returncode : Z;
  stdout : string
}.

Record OS : Type := mkOS {
  (** [os.path.abspath], [os.path.basename], [os.path.join] *)
  abspath : string -> string;
  basename : string -> string;
  join : string -> string -> string;
  (** [os.path.isfile], [os.path.islink], [os.path.isdir]: they answer
      [False] instead of raising. *)
  isfile : string -> bool;
  islink : string -> bool;
  isdir : string -> bool;
  (** [os.listdir] and [os.path.getsize] raise [OSError] only. *)
  listdir : string -> os_result (list string);
  getsize : string -> os_result Z;
  (** [subprocess.run(["du", "-sk", path], capture_output=True, text=True,
      timeout=30)] *)
  run_du : string -> result CompletedProcess;
  (** [str.split()] and [int(...)]; [None] is [ValueError]. *)
  str_split : string -> list string;
  int_of_str : string -> option Z
}.

(** ** The tree *)

Inductive kind : Type :=
| File   (* "file" *)
| Dir.   (* "dir" *)

(** The dict the walker builds.  A file node has no ["children"] key
    ([None]); a directory node always has one, possibly the empty list. *)
Inductive TreeNode : Type :=
| Node (name path : string) (size : Z) (type : kind)
       (children : option (list TreeNode)).

Definition name (n : TreeNode) : string := let (x, _, _, _, _) := n in x.
Definition path (n : TreeNode) : string := let (_, x, _, _, _) := n in x.
Definition size (n : TreeNode) : Z := let (_, _, x, _, _) := n in x.
Definition type (n : TreeNode) : kind := let (_, _, _, x, _) := n in x.
Definition children (n : TreeNode) : option (list TreeNode) :=
  let (_, _, _, _, x) := n in x.

(** The children as a list, empty when the key is absent. *)
Definition child_list (n : TreeNode) : list TreeNode :=
  match children n with
  | Some cs => cs
  | None => []
  end.

Definition total (l : list TreeNode) : Z :=
  fold_right (fun c acc => size c + acc) 0 l.

(** [e.startswith('.')] *)
Definition startswith_dot (e : string) : bool :=
  match e with
  | String c _ => Ascii.eqb c "."
  | EmptyString => false
  end.

(** [a or b] on strings *)
Definition str_or (a b : string) : string :=
  match a with
  | EmptyString => b
  | _ => a
  end.

(** ** [children.sort(key=lambda x: x["size"], reverse=True)]

    Python's sort is stable, also with [reverse=True]; a stable sort has
    one possible result, computed here by insertion. *)
Fixpoint insert_desc (x : TreeNode) (l : list TreeNode) : list TreeNode :=
  match l with
  | [] => [x]
  | y :: l' => if size x <? size y then y :: insert_desc x l' else x :: l
  end.

Definition sort_desc (l : list TreeNode) : list TreeNode :=
  fold_right insert_desc [] l.

Section Program.

Variable os : OS.

(** ** Size estimator *)

(** The body of the [try] of [get_size_with_du]: [Some v] is [return v],
    [None] is leaving the block without returning. *)
Definition du_try (path : string) : result (option Z) :=
  result <- run_du os path ;;
  if returncode result =? 0 then
    match str_split os (stdout result) with
    | [] => Raise IndexError
    | tok :: _ =>
        match int_of_str os tok with
        | None => Raise ValueError
        | Some size_kb => Ok (Some (size_kb * 1024))
        end
    end
  else Ok None.

Definition get_size_with_du (path : string) : result Z :=
  match du_try path with
  | Ok (Some v) => Ok v
  | Ok None => Ok 0
  | Raise e => if caught_by_du e then Ok 0 else Raise e
  end.

Definition get_file_size (path : string) : Z :=
  match getsize os path with
  | Done size => size
  | Failed _ => 0
  end.

(** [os.walk(top, topdown=True)] with the defaults [onerror=None] and
    [followlinks=False]: a directory that cannot be listed yields nothing,
    entries are split by [is_dir()] (which follows links), and a
    sub-directory that is a link is reported but not entered.  [fuel] bounds
    the nesting of directories. *)
Fixpoint walk (fuel : nat) (top : string)
  : list (string * list string * list string) :=
  match fuel with
  | O => []
  | S fuel' =>
      match listdir os top with
      | Failed _ => []
      | Done entries =>
          let dirs := filter (fun e => isdir os (join os top e)) entries in
          let nondirs :=
            filter (fun e => negb (isdir os (join os top e))) entries in
          (top, dirs, nondirs)
            :: flat_map (fun d => if islink os (join os top d) then []
                                  else walk fuel' (join os top d)) dirs
      end
  end.

(** The inner loop of [get_folder_size_walk] over the files of one
    directory. *)
Fixpoint sum_files (root : string) (files : list string) (total : Z) : Z :=
  match files with
  | [] => total
  | f :: rest =>
      let fp := join os root f in
      if negb (islink os fp) then
        match getsize os fp with
        | Done s => sum_files root rest (total + s)
        | Failed _ => sum_files root rest total
        end
      else sum_files root rest total
  end.

Definition get_folder_size_walk (fuel : nat) (path : string) : Z :=
  fold_left (fun total '(root, _, files) => sum_files root files total)
            (walk fuel path) 0.

(** ** Walker *)

(** One turn of the [for] loop of [scan_directory], inside its [try]:
    [None] is the [continue] of a symbolic link. *)
Definition scan_entry (self : string -> Z -> Z -> result TreeNode)
    (path : string) (max_depth current_depth : Z) (entry : string)
  : result (option TreeNode) :=
  let full_path := join os path entry in
  if islink os full_path then Ok None
  else if isdir os full_path then
    child <- self full_path max_depth (current_depth + 1) ;;
    Ok (Some child)
  else
    Ok (Some (Node entry full_path (get_file_size full_path) File None)).

(** The [for] loop, with its accumulators [children] and [total_size];
    [except OSError: continue] drops the entry. *)
Fixpoint scan_entries (self : string -> Z -> Z -> result TreeNode)
    (path : string) (max_depth current_depth : Z) (valid_entries : list string)
    (children : list TreeNode) (total_size : Z)
  : result (list TreeNode * Z) :=
  match valid_entries with
  | [] => Ok (children, total_size)
  | entry :: rest =>
      match scan_entry self path max_depth current_depth entry with
      | Ok None =>
          scan_entries self path max_depth current_depth rest
                       children total_size
      | Ok (Some child) =>
          scan_entries self path max_depth current_depth rest
                       (children ++ [child]) (total_size + size child)
      | Raise e =>
          if is_OSError e then
            scan_entries self path max_depth current_depth rest
                         children total_size
          else Raise e
      end
  end.

(** The body of [scan_directory], without its progress lines
    ([scan_body_io] has them); [self] stands for the recursive call. *)
Definition scan_body (self : string -> Z -> Z -> result TreeNode)
    (path : string) (max_depth current_depth : Z) : result TreeNode :=
  let path := abspath os path in
  let name := str_or (basename os path) path in
  if isfile os path then
    Ok (Node name path (get_file_size path) File None)
  else if current_depth >=? max_depth then
    size <- get_size_with_du path ;;
    Ok (Node name path size Dir (Some []))
  else
    match listdir os path with
    | Failed PermissionError =>
        size <- get_size_with_du path ;;
        Ok (Node name path size Dir (Some []))
    | Failed _ => Ok (Node name path 0 Dir (Some []))
    | Done entries =>
        let valid_entries :=
          filter (fun e => negb (startswith_dot e)) entries in
        r <- scan_entries self path max_depth current_depth valid_entries
                          [] 0 ;;
        let '(children, total_size) := r in
        Ok (Node name path total_size Dir (Some (sort_desc children)))
    end.

(** The recursion of [scan_directory] is bounded by the depth: a call
    recurses only while [current_depth < max_depth], one level deeper each
    time.  [fuel] counts the levels left; when none is left the cutoff has
    been reached and the recursive call is not made, whatever stands for it
    (lemma [scan_directory_eq]). *)
Fixpoint scan_rec (fuel : nat) : string -> Z -> Z -> result TreeNode :=
  scan_body
    match fuel with
    | O => fun _ _ _ => Raise (OSError OtherOSError)
    | S fuel' => scan_rec fuel'
    end.

Definition scan_directory (path : string) (max_depth current_depth : Z)
  : result TreeNode :=
  scan_rec (Z.to_nat (max_depth - current_depth)) path max_depth current_depth.

End Program.

(** ** The walker with its progress lines

    [scan_directory] prints as it goes.  What is printed is left out here;
    that a [print], or the [format_size] in its argument, can raise is
    not, nor that [os.path.abspath], [os.listdir] and the interpreter's
    stack can. *)

(** What can be raised: the exceptions above, the [OverflowError] of the
    float division in [format_size], and [RecursionError].  Only an
    [OSError] is caught by the loop. *)
Inductive raised : Type :=
| Known (e : exn)
| OverflowError
| RecursionError.

Inductive outcome (A : Type) : Type :=
| Returns (a : A)
| Raises (r : raised).
Arguments Returns {A} a.
Arguments Raises {A} r.

Definition raised_is_OSError (r : raised) : bool :=
  match r with
  | Known e => is_OSError e
  | _ => false
  end.

(** The progress lines, by what they are computed from. *)
Inductive progress : Type :=
| Scanning (current_depth : Z) (name : string)
| MaxDepth (current_depth : Z) (size : Z)
| PermissionDenied (current_depth : Z) (size : Z)
| ErrorReading (current_depth : Z)
| Finished (current_depth : Z) (dirs_count files_count total_size : Z).

(** The interpreter and the terminal: whether printing a progress line
    raises ([UnicodeEncodeError], a [ValueError], when the terminal cannot
    show it; an [OSError] when the output is closed; [OverflowError] when
    [format_size] gets a size too large for a float), whether [os.listdir]
    raises [ValueError] for a path (one with a null character), and
    whether [os.path.abspath] raises the [OSError] of [os.getcwd] (for a
    relative path when the working directory is gone). *)
Record Runtime : Type := mkRuntime {
  report : progress -> option raised;
  listdir_value_error : string -> bool;
  abspath_error : string -> option os_error
}.

Section ProgramWithProgress.

Variable os : OS.
Variable rt : Runtime.


(** [print(...)] and then [k]. *)
Definition printing {A : Type} (line : progress) (k : outcome A)
  : outcome A :=
  match report rt line with
  | Some r => Raises r
  | None => k
  end.

(** The [for] loop with its four accumulators.  [dirs_count] is
    increased before the recursive call, so also for a sub-directory that
    [except OSError] drops. *)
Fixpoint scan_entries_io (self : string -> Z -> Z -> outcome TreeNode)
    (path : string) (max_depth current_depth : Z) (valid_entries : list string)
    (children : list TreeNode) (total_size dirs_count files_count : Z)
  : outcome (list TreeNode * Z * Z * Z) :=
  match valid_entries with
  | [] => Returns (children, total_size, dirs_count, files_count)
  | entry :: rest =>
      let full_path := join os path entry in
      if islink os full_path then
        scan_entries_io self path max_depth current_depth rest
                        children total_size dirs_count files_count
      else if isdir os full_path then
        match self full_path max_depth (current_depth + 1) with
        | Returns child =>
            scan_entries_io self path max_depth current_depth rest
                            (children ++ [child]) (total_size + size child)
                            (dirs_count + 1) files_count
        | Raises r =>
            if raised_is_OSError r then
              scan_entries_io self path max_depth current_depth rest
                              children total_size (dirs_count + 1) files_count
            else Raises r
        end
      else
        let child :=
          Node entry full_path (get_file_size os full_path) File None in
        scan_entries_io self path max_depth current_depth rest
                        (children ++ [child]) (total_size + size child)
                        dirs_count (files_count + 1)
  end.

(** The body of [scan_directory], progress lines included. *)
Definition scan_body_io (self : string -> Z -> Z -> outcome TreeNode)
    (path : string) (max_depth current_depth : Z) : outcome TreeNode :=
  match abspath_error rt path with
  | Some k => Raises (Known (OSError k))
  | None =>
  let path := abspath os path in
  let name := str_or (basename os path) path in
  printing (Scanning current_depth name)
  (if isfile os path then
     Returns (Node name path (get_file_size os path) File None)
   else if current_depth >=? max_depth then
     match get_size_with_du os path with
     | Raise e => Raises (Known e)
     | Ok size =>
         printing (MaxDepth current_depth size)
                  (Returns (Node name path size Dir (Some [])))
     end
   else if listdir_value_error rt path then Raises (Known ValueError)
   else
     match listdir os path with
     | Failed PermissionError =>
         match get_size_with_du os path with
         | Raise e => Raises (Known e)
         | Ok size =>
             printing (PermissionDenied current_depth size)
                      (Returns (Node name path size Dir (Some [])))
         end
     | Failed _ =>
         printing (ErrorReading current_depth)
                  (Returns (Node name path 0 Dir (Some [])))
     | Done entries =>
         let valid_entries :=
           filter (fun e => negb (startswith_dot e)) entries in
         match scan_entries_io self path max_depth current_depth
                               valid_entries [] 0 0 0 with
         | Raises r => Raises r
         | Returns (children, total_size, dirs_count, files_count) =>
             printing
               (Finished current_depth dirs_count files_count total_size)
               (Returns (Node name path total_size Dir
                              (Some (sort_desc children))))
         end
     end)
  end.

(** [frames] is the number of nested calls of [scan_directory] the
    interpreter's stack has room for, with the calls each of them makes; a
    call beyond it raises [RecursionError], which nothing catches.  [fuel]
    counts the levels left to the depth cutoff, as in [scan_rec]. *)
Fixpoint scan_rec_io (fuel frames : nat) {struct fuel}
  : string -> Z -> Z -> outcome TreeNode :=
  match frames with
  | O => fun _ _ _ => Raises RecursionError
  | S frames' =>
      scan_body_io
        match fuel with
        | O => fun _ _ _ => Raises (Known (OSError OtherOSError))
        | S fuel' => scan_rec_io fuel' frames'
        end
  end.

Definition scan_directory_io (frames : nat) (path : string)
    (max_depth current_depth : Z) : outcome TreeNode :=
  scan_rec_io (Z.to_nat (max_depth - current_depth)) frames
              path max_depth current_depth.

End ProgramWithProgress.

(** ** Flattening *)

(** The dict [flatten_tree] appends for a node. *)
Record Item : Type := mkItem {
  item_name : string;
  item_path : string;
  item_size : Z;
  item_type : kind
}.

Definition item_of (node : TreeNode) : Item :=
  mkItem (name node) (path node) (size node) (type node).

(** [flatten_tree(node, items=None)].  The list [items] is one object that
    every recursive call appends to; the value threaded through the loop is
    the content of that object. *)
Fixpoint flatten_tree (node : TreeNode) (items : option (list Item))
  : list Item :=
  let items := match items with None => [] | Some l => l end in
  let items := items ++ [item_of node] in
  match node with
  | Node _ _ _ _ None => items
  | Node _ _ _ _ (Some cs) =>
      fold_left (fun items child => flatten_tree child (Some items)) cs items
  end.

(** ** Shortcuts *)

(** [s.replace(old, new)] where [old] is one character. *)
Fixpoint replace_char (old : ascii) (new : string) (s : string) : string :=
  match s with
  | EmptyString => EmptyString
  | String c s' =>
      if Ascii.eqb c old then (new ++ replace_char old new s')%string
      else String c (replace_char old new s')
  end.

(** The backslash and the double quote. *)
Definition backslash : ascii := "092"%char.
Definition dquote : ascii := "034"%char.

(** [escape_applescript_string] of [create_alias]: backslashes are
    doubled, then every double quote gets a backslash in front. *)
Definition escape_applescript_string (s : string) : string :=
  replace_char dquote (String backslash (String dquote ""))
    (replace_char backslash (String backslash (String backslash "")) s).

(** The URL [create_webloc_file] stores. *)
Definition file_url (target_path : string) : string :=
  ("file://" ++ replace_char " " "%20" target_path)%string.

(** What [generate_shortcuts] does outside the program: the preparation
    of the shortcut directories ([Path.exists], [shutil.rmtree], the three
    [mkdir]), the text [f"{i+1:03d}_{size_mb:.0f}MB_"] for the index [i] and
    the size in bytes ([None] when the size is too large for the float
    division, an [OverflowError]), the path
    [str(Path(shortcuts_dir) / subdir / name)], the opening of a file for
    writing ([Some e] when [open(path, "wb")] raises, and then no file is
    made) and the writing of the plist with its URL into the file that was
    opened ([Some e] when [plistlib.dump] raises). *)
Record ShortcutIO : Type := mkShortcutIO {
  prepare : string -> option exn;
  prefix_of : nat -> Z -> option string;
  path_under : string -> string -> string -> string;
  open_wb : string -> option exn;
  dump_plist : string -> string -> option exn
}.

(** The files [create_webloc_file] made, one for each call whose [open]
    went well, in the order of the calls: the path of each and the URL in
    it, or [None] for a file that was opened and whose plist was not
    written to the end. *)
Definition disk : Type := list (string * option string).

(** [create_webloc_file]: [open] makes the file, [plistlib.dump] fills
    it; when the second raises the file stays. *)
Definition create_webloc_file (io : ShortcutIO)
    (target_path shortcut_path : string) (files : disk)
  : result unit * disk :=
  let file_url := file_url target_path in
  match open_wb io shortcut_path with
  | Some e => (Raise e, files)
  | None =>
      match dump_plist io shortcut_path file_url with
      | Some e => (Raise e, files ++ [(shortcut_path, None)])
      | None => (Ok tt, files ++ [(shortcut_path, Some file_url)])
      end
  end.

(** A stable sort by decreasing key, as [list.sort(key=..., reverse=True)]
    is. *)
Section SortBy.

Variable A : Type.
Variable key : A -> Z.

Fixpoint insert_by_desc (x : A) (l : list A) : list A :=
  match l with
  | [] => [x]
  | y :: l' => if key x <? key y then y :: insert_by_desc x l' else x :: l
  end.

Definition sort_by_desc (l : list A) : list A :=
  fold_right insert_by_desc [] l.

End SortBy.

Arguments insert_by_desc {A} key x l.
Arguments sort_by_desc {A} key l.

(** [l[:n]], also for a negative [n]. *)
Definition slice_to {A : Type} (n : Z) (l : list A) : list A :=
  if 0 <=? n then firstn (Z.to_nat n) l
  else firstn (Z.to_nat (Z.of_nat (List.length l) + n)) l.

(** The first lines of [generate_shortcuts]: flatten, sort by size, keep
    the first [top_n]. *)
Definition top_items (tree : TreeNode) (top_n : Z) : list Item :=
  slice_to top_n (sort_by_desc item_size (flatten_tree tree None)).

(** [item["name"].replace("/", "_").replace(":", "_")] *)
Definition safe_name (name : string) : string :=
  replace_char ":" "_" (replace_char "/" "_" name).

Definition subdir_of (item : Item) : string :=
  match item_type item with
  | Dir => "folders"
  | File => "files"
  end.

(** How [generate_shortcuts] ends: it returns the number of shortcuts
    created, or an exception leaves it, from the preparation of the
    directories or from the float division.  [files] is what the shortcut
    directories hold then. *)
Inductive shortcuts_outcome : Type :=
| Returned (created : Z) (files : disk)
| PrepareRaised (e : exn)
| OverflowRaised (files : disk).

(** The loop of [generate_shortcuts] from the index [i] on, with the
    counter [created]; [except Exception] goes on with the next item. *)
Fixpoint shortcuts_loop (io : ShortcutIO) (shortcuts_dir : string)
    (i : nat) (items : list Item) (created : Z) (files : disk)
  : shortcuts_outcome :=
  match items with
  | [] => Returned created files
  | item :: rest =>
      let safe_name := safe_name (item_name item) in
      match prefix_of io i (item_size item) with
      | None => OverflowRaised files
      | Some prefix =>
          let subdir := subdir_of item in
          let shortcut_name := (prefix ++ safe_name ++ ".webloc")%string in
          let shortcut_full_path :=
            path_under io shortcuts_dir subdir shortcut_name in
          match create_webloc_file io (item_path item) shortcut_full_path
                                   files with
          | (Ok _, files) =>
              shortcuts_loop io shortcuts_dir (S i) rest (created + 1) files
          | (Raise _, files) =>
              shortcuts_loop io shortcuts_dir (S i) rest created files
          end
      end
  end.

Definition generate_shortcuts (io : ShortcutIO) (tree : TreeNode)
    (shortcuts_dir : string) (top_n : Z) : shortcuts_outcome :=
  let top_items := top_items tree top_n in
  match prepare io shortcuts_dir with
  | Some e => PrepareRaised e
  | None => shortcuts_loop io shortcuts_dir 0 top_items 0 []
  end.

(** ** A POSIX instance of the library calls

    [posixpath.join], [posixpath.basename], [posixpath.normpath] and
    [posixpath.abspath], and the ASCII fragment of [str.split()] and
    [int()], to run the program on concrete file systems. *)

Module Posix.

Definition is_slash (c : ascii) : bool := Ascii.eqb c "/".

Definition startswith_slash (s : string) : bool :=
  match s with
  | String c _ => is_slash c
  | EmptyString => false
  end.

Fixpoint endswith_slash (s : string) : bool :=
  match s with
  | EmptyString => false
  | String c EmptyString => is_slash c
  | String _ s' => endswith_slash s'
  end.

(** [posixpath.join(a, b)] *)
Definition join (a b : string) : string :=
  if startswith_slash b then b
  else if (a =? "")%string || endswith_slash a then (a ++ b)%string
  else (a ++ "/" ++ b)%string.

(** [s.split('/')] *)
Fixpoint split_slash (s : string) : list string :=
  match s with
  | EmptyString => [""]
  | String c s' =>
      if is_slash c then "" :: split_slash s'
      else match split_slash s' with
           | [] => [String c ""]
           | h :: t => String c h :: t
           end
  end.

(** [posixpath.basename(p)]: what follows the last slash. *)
Definition basename (p : string) : string := last (split_slash p) "".

Definition is_nil {A : Type} (l : list A) : bool :=
  match l with
  | [] => true
  | _ => false
  end.

(** One turn of the loop of [posixpath.normpath]. *)
Definition norm_step (initial_slashes : nat) (new_comps : list string)
    (comp : string) : list string :=
  if (comp =? "")%string || (comp =? ".")%string then new_comps
  else if negb (comp =? "..")%string
          || ((initial_slashes =? 0)%nat && is_nil new_comps)
          || (negb (is_nil new_comps) && (last new_comps "" =? "..")%string)
       then new_comps ++ [comp]
  else if negb (is_nil new_comps) then removelast new_comps
  else new_comps.

Fixpoint slashes (n : nat) : string :=
  match n with
  | O => ""
  | S n' => String "/" (slashes n')
  end.

(** The leading slashes [posixpath.normpath] keeps: one, or two when the
    path starts with exactly two. *)
Definition initial_slashes (path : string) : nat :=
  if startswith_slash path then
    if prefix "//" path && negb (prefix "///" path) then 2%nat else 1%nat
  else 0%nat.

(** [posixpath.normpath(path)] *)
Definition normpath (path : string) : string :=
  match path with
  | EmptyString => "."
  | _ =>
      let initial_slashes := initial_slashes path in
      let comps :=
        fold_left (norm_step initial_slashes) (split_slash path) [] in
      let path := String.concat "/" comps in
      let path := (slashes initial_slashes ++ path)%string in
      str_or path "."
  end.

(** [posixpath.abspath(path)], [cwd] being [os.getcwd()]. *)
Definition abspath (cwd path : string) : string :=
  if startswith_slash path then normpath path
  else normpath (join cwd path).

(** White space of [str.split()] in the ASCII range. *)
Definition is_space (c : ascii) : bool :=
  let n := nat_of_ascii c in
  ((9 <=? n)%nat && (n <=? 13)%nat) || ((28 <=? n)%nat && (n <=? 32)%nat).

(** [s.split()]: the maximal runs of characters that are not white space.
    [cur] is the run being read, reversed. *)
Fixpoint split_ws (s : string) (cur : list ascii) : list string :=
  let flush rest :=
    match cur with
    | [] => rest
    | _ => string_of_list_ascii (rev cur) :: rest
    end in
  match s with
  | EmptyString => flush []
  | String c s' =>
      if is_space c then flush (split_ws s' []) else split_ws s' (c :: cur)
  end.

Definition digit (c : ascii) : option Z :=
  let n := nat_of_ascii c in
  if ((48 <=? n)%nat && (n <=? 57)%nat)%bool then Some (Z.of_nat n - 48)
  else None.

(** The digits of a decimal literal; single underscores may stand between
    digits.  [after_digit] tells whether the previous character was one. *)
Fixpoint digits (s : string) (acc : Z) (after_digit : bool) : option Z :=
  match s with
  | EmptyString => if after_digit then Some acc else None
  | String c s' =>
      match digit c with
      | Some d => digits s' (10 * acc + d) true
      | None =>
          if (Ascii.eqb c "_" && after_digit)%bool then digits s' acc false
          else None
      end
  end.

(** [int(tok)] for a token without white space (and below the limit on
    the number of digits): an optional sign and a decimal literal; anything
    else is [ValueError]. *)
Definition int (tok : string) : option Z :=
  match tok with
  | String "-" s => option_map Z.opp (digits s 0 false)
  | String "+" s => digits s 0 false
  | s => digits s 0 false
  end.

Fixpoint has_slash (s : string) : bool :=
  match s with
  | EmptyString => false
  | String c s' => is_slash c || has_slash s'
  end.

(** The names a directory can hold: not empty, without a slash, and
    neither [.] nor [..]. *)
Definition is_name (e : string) : bool :=
  negb (e =? "")%string && negb (has_slash e)
  && negb (e =? ".")%string && negb (e =? "..")%string.

(** [x] is the name [e] or ends in a slash followed by [e]. *)
Definition ends_with_name (e x : string) : Prop :=
  x = e \/ exists pre, x = (pre ++ String "/" e)%string.

End Posix.

(** ** A concrete file system

    The scan root [/r] holds the file [a] (100 bytes), the hidden file
    [.hidden] (50 bytes) and the directory [b]; [b] holds the file [c]
    (200 bytes), the symbolic link [d] to a directory elsewhere and the
    directory [e], which holds the file [f] (4096 bytes).  The behaviour of
    the [du] process is left open. *)

Module Demo.

Definition tab : string := String "009" "".

Definition files : list (string * Z) :=
  [("/r/a", 100); ("/r/.hidden", 50); ("/r/b/c", 200); ("/r/b/e/f", 4096)].

Definition dirs : list (string * list string) :=
  [("/r", ["a"; ".hidden"; "b"]);
   ("/r/b", ["c"; "d"; "e"]);
   ("/r/b/e", ["f"]);
   ("/r/b/d", ["g"])].

Fixpoint lookup {A : Type} (k : string) (l : list (string * A)) : option A :=
  match l with
  | [] => None
  | (k', v) :: l' => if (k =? k')%string then Some v else lookup k l'
  end.

Definition is_some {A : Type} (o : option A) : bool :=
  match o with
  | Some _ => true
  | None => false
  end.

Definition fs (du : string -> result CompletedProcess) : OS :=
  {| abspath := Posix.abspath "/";
     basename := Posix.basename;
     join := Posix.join;
     isfile := fun p => is_some (lookup p files);
     islink := fun p => (p =? "/r/b/d")%string;
     isdir := fun p => is_some (lookup p dirs);
     listdir := fun p =>
       match lookup p dirs with
       | Some l => Done l
       | None => Failed (if is_some (lookup p files) then OtherOSError
                         else FileNotFoundError)
       end;
     getsize := fun p =>
       match lookup p files with
       | Some s => Done s
       | None => if is_some (lookup p dirs) then Done 64
                 else Failed FileNotFoundError
       end;
     run_du := du;
     str_split := fun s => Posix.split_ws s [];
     int_of_str := Posix.int |}.

(** [du -sk] at work: it prints the size in kilobytes, a tab and the path. *)
Definition du_ok (p : string) : result CompletedProcess :=
  match lookup p [("/r", "16"); ("/r/b", "12"); ("/r/b/e", "4")] with
  | Some kb => Ok (mkCompleted 0 (kb ++ tab ++ p ++ String "010" ""))
  | None => Ok (mkCompleted 1 "")
  end.

(** [du] exits with status 1 and prints nothing on standard output. *)
Definition du_fails (p : string) : result CompletedProcess :=
  Ok (mkCompleted 1 "").

(** There is no [du] on the [PATH]: [subprocess.run] raises
    [FileNotFoundError]. *)
Definition du_missing (p : string) : result CompletedProcess :=
  Raise (OSError FileNotFoundError).

(** The process does not end within the 30 seconds. *)
Definition du_timeout (p : string) : result CompletedProcess :=
  Raise TimeoutExpired.

(** [du] exits with status 0 but its output does not start with a
    number. *)
Definition du_garbled (p : string) : result CompletedProcess :=
  Ok (mkCompleted 0 "total unknown").

(** [du] exits with status 0 and prints nothing. *)
Definition du_silent (p : string) : result CompletedProcess :=
  Ok (mkCompleted 0 "").

(** The same file system, where [/r/b] may not be listed. *)
Definition fs_denied (du : string -> result CompletedProcess) : OS :=
  let os := fs du in
  {| abspath := abspath os; basename := basename os; join := join os;
     isfile := isfile os; islink := islink os; isdir := isdir os;
     listdir := fun p => if (p =? "/r/b")%string then Failed PermissionError
                         else listdir os p;
     getsize := getsize os; run_du := du;
     str_split := str_split os; int_of_str := int_of_str os |}.

(** The scan of [/r] with [max_depth = 3]: everything is enumerated. *)
Definition tree3 : TreeNode :=
  Node "r" "/r" 4396 Dir
    (Some [Node "b" "/r/b" 4296 Dir
             (Some [Node "e" "/r/b/e" 4096 Dir
                      (Some [Node "f" "/r/b/e/f" 4096 File None]);
                    Node "c" "/r/b/c" 200 File None]);
           Node "a" "/r/a" 100 File None]).

(** The scan of [/r] with [max_depth = 1] and a working [du]: [/r/b] is
    cut off and sized by [du] (12 kilobytes). *)
Definition tree1 : TreeNode :=
  Node "r" "/r" 12388 Dir
    (Some [Node "b" "/r/b" 12288 Dir (Some []);
           Node "a" "/r/a" 100 File None]).

(** [f"{n:03d}"] *)
Definition pad3 (n : nat) : string :=
  let digits := NilZero.string_of_uint (Nat.to_uint n) in
  match String.length digits with
  | 1%nat => ("00" ++ digits)%string
  | 2%nat => ("0" ++ digits)%string
  | _ => digits
  end.

(** [f"{size / (1024 * 1024):.0f}"] for a size that is not negative: the
    quotient rounded to the nearest integer, to the even one of two (the
    float division is exact below 2^53 bytes). *)
Definition megabytes (size : Z) : string :=
  let q := size / 1048576 in
  let r := size mod 1048576 in
  let n := if (524288 <? r) || ((r =? 524288) && Z.odd q) then q + 1 else q in
  NilZero.string_of_uint (N.to_uint (Z.to_N n)).

(** Shortcut directories that can be prepared; the prefix of the code for
    sizes from 0 to below 2^53 bytes, an [OverflowError] from 2^1044 bytes
    on; the plist for the file [c] cannot be written once its shortcut is
    opened. *)
Definition io : ShortcutIO :=
  {| prepare := fun _ => None;
     prefix_of := fun i size =>
       if Z.abs size <? 2 ^ 1044
       then Some (pad3 (S i) ++ "_" ++ megabytes size ++ "MB_")%string
       else None;
     path_under := fun d sub n => (d ++ "/" ++ sub ++ "/" ++ n)%string;
     open_wb := fun _ => None;
     dump_plist := fun p url =>
       if (url =? "file:///r/b/c")%string then Some ValueError else None |}.

(** A directory [/h] of two plain files: [x] of 10 bytes and the hidden
    [.y] of 7 bytes. *)
Definition plain_files : list (string * Z) := [("/h/x", 10); ("/h/.y", 7)].

Definition plain_fs : OS :=
  {| abspath := Posix.abspath "/";
     basename := Posix.basename;
     join := Posix.join;
     isfile := fun p => is_some (lookup p plain_files);
     islink := fun _ => false;
     isdir := fun p => (p =? "/h")%string;
     listdir := fun p =>
       if (p =? "/h")%string then Done ["x"; ".y"]
       else Failed FileNotFoundError;
     getsize := fun p =>
       match lookup p plain_files with
       | Some s => Done s
       | None => Failed FileNotFoundError
       end;
     run_du := du_fails;
     str_split := fun s => Posix.split_ws s [];
     int_of_str := Posix.int |}.

(** What [du -sk] prints for [p] where the files are [files]: the
    kilobytes of all the files below [p], hidden or not, rounded up (the
    blocks of the directories themselves are left out), a tab and [p]. *)
Definition du_counting (files : list (string * Z)) (p : string)
  : result CompletedProcess :=
  let below := filter (fun f => prefix (p ++ "/") (fst f)) files in
  let bytes := fold_right (fun f acc => snd f + acc) 0 below in
  let kb := (bytes + 1023) / 1024 in
  Ok (mkCompleted 0 (NilZero.string_of_uint (N.to_uint (Z.to_N kb))
                     ++ tab ++ p ++ String "010" "")).

(** The directory [/v] holds the file [a] (100 bytes) and the directory
    [b]; [b] holds the hidden file [.cache] (1 MiB) when [hidden] is set
    and nothing otherwise. *)
Definition cache_files (hidden : bool) : list (string * Z) :=
  ("/v/a", 100) :: (if hidden then [("/v/b/.cache", 1048576)] else []).

Definition cache_fs (hidden : bool) : OS :=
  {| abspath := Posix.abspath "/";
     basename := Posix.basename;
     join := Posix.join;
     isfile := fun p => is_some (lookup p (cache_files hidden));
     islink := fun _ => false;
     isdir := fun p => (p =? "/v")%string || (p =? "/v/b")%string;
     listdir := fun p =>
       if (p =? "/v")%string then Done ["a"; "b"]
       else if (p =? "/v/b")%string
            then Done (if hidden then [".cache"] else [])
            else Failed FileNotFoundError;
     getsize := fun p =>
       match lookup p (cache_files hidden) with
       | Some s => Done s
       | None => Failed FileNotFoundError
       end;
     run_du := du_counting (cache_files hidden);
     str_split := fun s => Posix.split_ws s [];
     int_of_str := Posix.int |}.

(** A terminal that shows every line, paths without null characters, a
    working directory that is there. *)
Definition quiet_rt : Runtime :=
  {| report := fun _ => None;
     listdir_value_error := fun _ => false;
     abspath_error := fun _ => None |}.

(** A terminal that cannot show the folder sign of the first progress
    line: printing it raises [UnicodeEncodeError]. *)
Definition ascii_rt : Runtime :=
  {| report := fun line =>
       match line with
       | Scanning _ _ => Some (Known ValueError)
       | _ => None
       end;
     listdir_value_error := fun _ => false;
     abspath_error := fun _ => None |}.

End Demo.

(** * Vocabulary of the properties *)

(** ** The tree and its nodes *)

(** Every node of a tree: the root, then the nodes of each child. *)
Fixpoint nodes (n : TreeNode) : list TreeNode :=
  n :: match n with
       | Node _ _ _ _ (Some cs) => flat_map nodes cs
       | Node _ _ _ _ None => []
       end.

(** The nodes [d] levels below the root. *)
Fixpoint nodes_at (d : nat) (n : TreeNode) : list TreeNode :=
  match d with
  | O => [n]
  | S d' => flat_map (nodes_at d') (child_list n)
  end.

(** Adjacent children: the left one is at least as large as the right one. *)
Definition size_ge (l r : TreeNode) : Prop := size l >= size r.

(** Induction on trees, with the property at hand for all children. *)
Section TreeNode_induction.

Variable P : TreeNode -> Prop.
Hypothesis P_leaf : forall n p s t, P (Node n p s t None).
Hypothesis P_node :
  forall n p s t cs, Forall P cs -> P (Node n p s t (Some cs)).

Fixpoint TreeNode_nested_ind (t : TreeNode) : P t :=
  match t with
  | Node n p s k None => P_leaf n p s k
  | Node n p s k (Some cs) =>
      P_node n p s k cs
        ((fix all (l : list TreeNode) : Forall P l :=
            match l with
            | [] => Forall_nil P
            | c :: l' => Forall_cons c (TreeNode_nested_ind c) (all l')
            end) cs)
  end.

End TreeNode_induction.

(** ** What a scan returns *)

Section Vocabulary.

Variable os : OS.

Definition raises_only_OSError (self : string -> Z -> Z -> result TreeNode)
  : Prop :=
  forall q m c e, self q m c = Raise e -> is_OSError e = true.

(** The kilobyte count [get_size_with_du] parses, when [du] ran, exited
    with status 0 and its output starts with a number. *)
Definition parsed_kb (path : string) : option Z :=
  match run_du os path with
  | Ok r =>
      if returncode r =? 0 then
        match str_split os (stdout r) with
        | tok :: _ => int_of_str os tok
        | [] => None
        end
      else None
  | Raise _ => None
  end.

(** The children the loop keeps, in the order of the entries. *)
Definition retained (self : string -> Z -> Z -> result TreeNode)
    (path : string) (max_depth current_depth : Z) (entries : list string)
  : list TreeNode :=
  flat_map (fun e =>
              match scan_entry os self path max_depth current_depth e with
              | Ok (Some child) => [child]
              | _ => []
              end) entries.

(** The entries that are not hidden. *)
Definition visible (entries : list string) : list string :=
  filter (fun e => negb (startswith_dot e)) entries.

(** The five ways [scan_directory] returns a node, for the absolute path
    [q] and the name [nm]. *)
Inductive scan_shape (q nm : string) (m c : Z) : TreeNode -> Prop :=
| shape_file :
    isfile os q = true ->
    scan_shape q nm m c (Node nm q (get_file_size os q) File None)
| shape_cutoff s :
    isfile os q = false -> c >= m ->
    get_size_with_du os q = Ok s ->
    scan_shape q nm m c (Node nm q s Dir (Some []))
| shape_denied s :
    isfile os q = false -> c < m ->
    listdir os q = Failed PermissionError ->
    get_size_with_du os q = Ok s ->
    scan_shape q nm m c (Node nm q s Dir (Some []))
| shape_error k :
    isfile os q = false -> c < m ->
    listdir os q = Failed k -> k <> PermissionError ->
    scan_shape q nm m c (Node nm q 0 Dir (Some []))
| shape_listed entries :
    isfile os q = false -> c < m ->
    listdir os q = Done entries ->
    scan_shape q nm m c
      (Node nm q
         (total (retained (scan_directory os) q m c (visible entries)))
         Dir
         (Some (sort_desc
                  (retained (scan_directory os) q m c (visible entries))))).

(** A node below the root of a scan: it stands for the entry [e] listed
    in the directory [q]; [e] is not hidden and not a symbolic link, and
    the node is either the file node the loop builds or what the recursive
    scan at depth [c] returned. *)
Inductive entry_node (m c : Z) (d : TreeNode) : Prop :=
| entry_file q entries e :
    listdir os q = Done entries -> In e entries ->
    startswith_dot e = false -> islink os (join os q e) = false ->
    isdir os (join os q e) = false ->
    d = Node e (join os q e) (get_file_size os (join os q e)) File None ->
    entry_node m c d
| entry_dir q entries e :
    listdir os q = Done entries -> In e entries ->
    startswith_dot e = false -> islink os (join os q e) = false ->
    isdir os (join os q e) = true ->
    scan_directory os (join os q e) m c = Ok d ->
    entry_node m c d.

End Vocabulary.


(** The total [get_folder_size_walk] adds to [tot] for the tree under
    [top]. *)
Definition walk_total (o : OS) (fuel : nat) (top : string) (tot : Z) : Z :=
  fold_left (fun total '(root, _, files) => sum_files o root files total)
            (walk o fuel top) tot.

(** ** Operating systems that list fewer entries *)

(** [os] with every listing cut down to the entries [keep dir entry]
    accepts; nothing else changes. *)
Definition with_listing (keep : string -> string -> bool) (os : OS) : OS :=
  {| abspath := abspath os;
     basename := basename os;
     join := join os;
     isfile := isfile os;
     islink := islink os;
     isdir := isdir os;
     listdir := fun p =>
       match listdir os p with
       | Done entries => Done (filter (keep p) entries)
       | Failed k => Failed k
       end;
     getsize := getsize os;
     run_du := run_du os;
     str_split := str_split os;
     int_of_str := int_of_str os |}.

(** No directory lists a hidden entry. *)
Definition without_hidden (os : OS) : OS :=
  with_listing (fun _ e => negb (startswith_dot e)) os.


(** What [os.listdir] lists are names: not empty, and the base name of the
    absolute path of the entry [e] of a directory is [e] again. *)
Definition lists_names (os : OS) : Prop :=
  forall dir entries e,
    listdir os dir = Done entries -> In e entries ->
    e <> "" /\ basename os (abspath os (join os dir e)) = e.

(** ** Further vocabulary *)

(** The sizes of the nodes without children under a node, added up. *)
Fixpoint leaf_total (n : TreeNode) : Z :=
  match n with
  | Node _ _ s _ None => s
  | Node _ _ s _ (Some []) => s
  | Node _ _ _ _ (Some cs) =>
      fold_right (fun c acc => leaf_total c + acc) 0 cs
  end.

(** File sizes and the counts [du] prints are not negative. *)
Definition sizes_not_negative (os : OS) : Prop :=
  (forall p s, getsize os p = Done s -> 0 <= s) /\
  (forall p kb, parsed_kb os p = Some kb -> 0 <= kb).

(** What the file [f] of the directory [root] adds to the manual walk. *)
Definition file_contribution (os : OS) (root f : string) : Z :=
  if islink os (join os root f) then 0
  else match getsize os (join os root f) with
       | Done s => s
       | Failed _ => 0
       end.

Definition sum_Z (l : list Z) : Z := fold_right Z.add 0 l.

(** The left element's key is at least the right one's. *)
Definition key_ge {A : Type} (key : A -> Z) (l r : A) : Prop :=
  key l >= key r.

(** Reading an escaped string back: a backslash stands for the character
    after it; a double quote without one, or a backslash at the end, is not
    part of an escaped string. *)
Fixpoint unescape (s : string) : option string :=
  match s with
  | EmptyString => Some EmptyString
  | String c s' =>
      if Ascii.eqb c backslash then
        match s' with
        | String d s'' => option_map (String d) (unescape s'')
        | EmptyString => None
        end
      else if Ascii.eqb c dquote then None
      else option_map (String c) (unescape s')
  end.


(** The depth of the call that prints a line. *)
Definition line_depth (line : progress) : Z :=
  match line with
  | Scanning d _ => d
  | MaxDepth d _ => d
  | PermissionDenied d _ => d
  | ErrorReading d => d
  | Finished d _ _ _ => d
  end.


(** The files that hold their URL. *)
Definition holds_url (f : string * option string) : bool :=
  match snd f with
  | Some _ => true
  | None => false
  end.

Definition complete_files (files : disk) : disk := filter holds_url files.

Fixpoint has_char (c : ascii) (s : string) : bool :=
  match s with
  | EmptyString => false
  | String d s' => Ascii.eqb d c || has_char c s'
  end.

(** * Properties *)

(** ** The tree and its nodes *)


Lemma nodes_self (n : TreeNode) : In n (nodes n).
Proof. destruct n as [? ? ? ? [cs|]]; simpl; auto. Qed.

Lemma nodes_child (n c d : TreeNode) :
  In c (child_list n) -> In d (nodes c) -> In d (nodes n).
Proof.
  destruct n as [nm p s t [cs|]]; unfold child_list; simpl; intros Hc Hd.
  - right. apply in_flat_map. exists c. auto.
  - contradiction.
Qed.

Lemma nodes_inv (n d : TreeNode) :
  In d (nodes n) ->
  d = n \/ exists c, In c (child_list n) /\ In d (nodes c).
Proof.
  destruct n as [nm p s t [cs|]]; unfold child_list; simpl.
  - intros [H | H]; [left; auto|].
    apply in_flat_map in H. destruct H as (c & Hc & Hd). right; eauto.
  - intros [H | []]. left; auto.
Qed.

(** A property of every node follows from the property of every root of a
    sub-tree whose children have it throughout. *)
Lemma nodes_Forall (P : TreeNode -> Prop) (n : TreeNode) :
  P n -> Forall (fun c => forall d, In d (nodes c) -> P d) (child_list n) ->
  forall d, In d (nodes n) -> P d.
Proof.
  intros Hn Hcs d Hd. apply nodes_inv in Hd.
  destruct Hd as [-> | (c & Hc & Hd)]; auto.
  rewrite Forall_forall in Hcs. eauto.
Qed.

(** ** The sort *)

Lemma total_app (a b : list TreeNode) : total (a ++ b) = total a + total b.
Proof. induction a; simpl; lia. Qed.

Lemma insert_desc_perm (x : TreeNode) (l : list TreeNode) :
  Permutation (x :: l) (insert_desc x l).
Proof.
  induction l as [|y l IH]; simpl; auto.
  destruct (size x <? size y); auto.
  rewrite perm_swap. constructor. exact IH.
Qed.

Lemma sort_desc_perm (l : list TreeNode) : Permutation l (sort_desc l).
Proof.
  induction l as [|x l IH]; simpl; auto.
  rewrite <- insert_desc_perm. constructor. exact IH.
Qed.

Lemma total_perm (a b : list TreeNode) :
  Permutation a b -> total a = total b.
Proof. induction 1; simpl; lia. Qed.

Lemma total_sort_desc (l : list TreeNode) : total (sort_desc l) = total l.
Proof. symmetry. apply total_perm, sort_desc_perm. Qed.

Lemma sort_desc_In (l : list TreeNode) (x : TreeNode) :
  In x (sort_desc l) <-> In x l.
Proof.
  split; apply Permutation_in;
    [apply Permutation_sym|]; apply sort_desc_perm.
Qed.

Lemma sort_desc_nil_inv (l : list TreeNode) : sort_desc l = [] -> l = [].
Proof.
  intros H. apply Permutation_nil. rewrite <- H.
  apply Permutation_sym, sort_desc_perm.
Qed.

Lemma insert_desc_HdRel (a x : TreeNode) (l : list TreeNode) :
  size_ge a x -> HdRel size_ge a l -> HdRel size_ge a (insert_desc x l).
Proof.
  intros Hax Hl. destruct l as [|y l]; simpl.
  - constructor. exact Hax.
  - destruct (size x <? size y).
    + constructor. inversion Hl; auto.
    + constructor. exact Hax.
Qed.

Lemma insert_desc_sorted (x : TreeNode) (l : list TreeNode) :
  Sorted size_ge l -> Sorted size_ge (insert_desc x l).
Proof.
  induction 1 as [|y l Hs IH Hhd]; simpl.
  - repeat constructor.
  - destruct (Z.ltb_spec (size x) (size y)).
    + constructor; auto. apply insert_desc_HdRel; auto.
      unfold size_ge. lia.
    + constructor.
      * constructor; auto.
      * constructor. unfold size_ge. lia.
Qed.

Lemma sort_desc_sorted (l : list TreeNode) : Sorted size_ge (sort_desc l).
Proof.
  induction l; simpl; [constructor | apply insert_desc_sorted; assumption].
Qed.

(** ** The estimator *)

Section Facts.

Variable os : OS.

Lemma get_size_with_du_cases (p : string) :
  match run_du os p with
  | Raise e =>
      get_size_with_du os p = if caught_by_du e then Ok 0 else Raise e
  | Ok _ =>
      get_size_with_du os p =
      Ok match parsed_kb os p with Some kb => kb * 1024 | None => 0 end
  end.
Proof.
  unfold get_size_with_du, du_try, parsed_kb, bind.
  destruct (run_du os p) as [r | e]; [|reflexivity].
  destruct (returncode r =? 0); [|reflexivity].
  destruct (str_split os (stdout r)) as [|tok ?]; [reflexivity|].
  destruct (int_of_str os tok); reflexivity.
Qed.

Lemma get_size_with_du_raises (p : string) (e : exn) :
  get_size_with_du os p = Raise e -> is_OSError e = true.
Proof.
  pose proof (get_size_with_du_cases p) as H.
  destruct (run_du os p) as [r | e']; rewrite H; [discriminate|].
  destruct e'; simpl; intros [= <-] || discriminate. reflexivity.
Qed.

(** ** The loop over the entries *)

Lemma scan_entry_raises self p m c e ex :
  raises_only_OSError self ->
  scan_entry os self p m c e = Raise ex -> is_OSError ex = true.
Proof.
  intros Hself. unfold scan_entry, bind.
  destruct (islink os (join os p e)); [discriminate|].
  destruct (isdir os (join os p e)); [|discriminate].
  destruct (self (join os p e) m (c + 1)) eqn:E; [discriminate|].
  intros [= <-]. eapply Hself, E.
Qed.

Lemma scan_entries_spec self p m c entries acc tot :
  raises_only_OSError self ->
  scan_entries os self p m c entries acc tot =
  Ok (acc ++ retained os self p m c entries,
      tot + total (retained os self p m c entries)).
Proof.
  intros Hself. revert acc tot.
  induction entries as [|e rest IH]; intros acc tot; simpl.
  - rewrite app_nil_r. f_equal. f_equal. lia.
  - destruct (scan_entry os self p m c e) as [[child|]|ex] eqn:E.
    + rewrite IH. rewrite <- app_assoc. simpl. f_equal. f_equal. lia.
    + apply IH.
    + erewrite scan_entry_raises by eassumption. apply IH.
Qed.

Lemma scan_body_raises self p m c e :
  raises_only_OSError self ->
  scan_body os self p m c = Raise e -> is_OSError e = true.
Proof.
  intros Hself. unfold scan_body.
  destruct (isfile os (abspath os p)); [discriminate|].
  assert (Hdu : forall k : Z -> result TreeNode,
             (forall s, k s <> Raise e) ->
             bind (get_size_with_du os (abspath os p)) k = Raise e ->
             is_OSError e = true).
  { intros k Hk. unfold bind.
    destruct (get_size_with_du os (abspath os p)) eqn:E.
    - intros H. destruct (Hk _ H).
    - intros [= <-]. eapply get_size_with_du_raises, E. }
  destruct (c >=? m).
  - apply Hdu. discriminate.
  - destruct (listdir os (abspath os p)) as [entries | []];
      try discriminate.
    + rewrite scan_entries_spec by assumption. discriminate.
    + apply Hdu. discriminate.
Qed.

Lemma scan_rec_raises (fuel : nat) : raises_only_OSError (scan_rec os fuel).
Proof.
  induction fuel as [|fuel IH]; intros q m c e; simpl;
    apply scan_body_raises; auto.
  intros ? ? ? ? [= <-]. reflexivity.
Qed.

Lemma scan_directory_raises : raises_only_OSError (scan_directory os).
Proof. intros q m c e. apply scan_rec_raises. Qed.

(** ** The recursion equation of [scan_directory] *)

Lemma scan_entry_ext self self' p m c e :
  (forall q, self q m (c + 1) = self' q m (c + 1)) ->
  scan_entry os self p m c e = scan_entry os self' p m c e.
Proof. intros H. unfold scan_entry. rewrite H. reflexivity. Qed.

Lemma scan_entries_ext self self' p m c entries acc tot :
  (forall q, self q m (c + 1) = self' q m (c + 1)) ->
  scan_entries os self p m c entries acc tot =
  scan_entries os self' p m c entries acc tot.
Proof.
  intros H. revert acc tot.
  induction entries as [|e rest IH]; intros acc tot; simpl; auto.
  rewrite (scan_entry_ext self self' p m c e H).
  destruct (scan_entry os self' p m c e) as [[child|]|ex]; auto.
  destruct (is_OSError ex); auto.
Qed.

Lemma scan_body_ext self self' p m c :
  (c < m -> forall q, self q m (c + 1) = self' q m (c + 1)) ->
  scan_body os self p m c = scan_body os self' p m c.
Proof.
  intros H. unfold scan_body.
  destruct (isfile os (abspath os p)); auto.
  destruct (Z.geb_spec c m); auto.
  destruct (listdir os (abspath os p)); auto.
  erewrite scan_entries_ext by (apply H; lia). reflexivity.
Qed.

(** [scan_directory] satisfies the equation its Python text reads as. *)
Lemma scan_directory_eq (p : string) (m c : Z) :
  scan_directory os p m c = scan_body os (scan_directory os) p m c.
Proof.
  unfold scan_directory at 1.
  destruct (Z.to_nat (m - c)) as [|fuel] eqn:E; simpl;
    apply scan_body_ext; intros Hlt q.
  - lia.
  - unfold scan_directory. replace (Z.to_nat (m - (c + 1))) with fuel by lia.
    reflexivity.
Qed.

End Facts.

(** ** What a scan returns *)

Section Shape.

Variable os : OS.

Lemma scan_directory_inv (p : string) (m c : Z) (node : TreeNode) :
  scan_directory os p m c = Ok node ->
  scan_shape os (abspath os p)
             (str_or (basename os (abspath os p)) (abspath os p)) m c node.
Proof.
  rewrite scan_directory_eq. unfold scan_body.
  set (q := abspath os p). set (nm := str_or (basename os q) q).
  destruct (isfile os q) eqn:Ef.
  { intros [= <-]. apply shape_file; assumption. }
  destruct (Z.geb_spec c m) as [Hc | Hc].
  { unfold bind. destruct (get_size_with_du os q) as [s|] eqn:Ed;
      [|discriminate].
    intros [= <-]. now apply shape_cutoff; [|lia|]. }
  destruct (listdir os q) as [entries | k] eqn:El.
  - rewrite scan_entries_spec by apply scan_directory_raises.
    simpl. intros [= <-]. now apply shape_listed.
  - destruct k.
    + unfold bind. destruct (get_size_with_du os q) as [s|] eqn:Ed;
        [|discriminate].
      intros [= <-]. now apply shape_denied.
    + intros [= <-]. now apply shape_error with FileNotFoundError.
    + intros [= <-]. now apply shape_error with OtherOSError.
Qed.

(** Every node a scan returns carries the absolute path it was asked for
    and that path's base name. *)
Lemma scan_directory_path (p : string) (m c : Z) (node : TreeNode) :
  scan_directory os p m c = Ok node ->
  path node = abspath os p /\
  name node = str_or (basename os (abspath os p)) (abspath os p).
Proof.
  intros H. apply scan_directory_inv in H. destruct H; auto.
Qed.

(** Where a kept child comes from. *)
Lemma retained_In self q m c entries ch :
  In ch (retained os self q m c entries) ->
  exists e, In e entries /\ islink os (join os q e) = false /\
    ((isdir os (join os q e) = true /\
      self (join os q e) m (c + 1) = Ok ch) \/
     (isdir os (join os q e) = false /\
      ch = Node e (join os q e) (get_file_size os (join os q e)) File None)).
Proof.
  unfold retained. rewrite in_flat_map. intros (e & He & Hch).
  exists e. split; [exact He|]. unfold scan_entry, bind in Hch.
  destruct (islink os (join os q e)); [destruct Hch|].
  split; [reflexivity|].
  destruct (isdir os (join os q e)).
  - destruct (self (join os q e) m (c + 1)) as [n|]; [|destruct Hch].
    destruct Hch as [<- | []]. auto.
  - destruct Hch as [<- | []]. auto.
Qed.

Lemma visible_In (entries : list string) (e : string) :
  In e (visible entries) <-> In e entries /\ startswith_dot e = false.
Proof.
  unfold visible. rewrite filter_In, negb_true_iff. reflexivity.
Qed.

Lemma children_entry_node (p : string) (m c : Z) (node ch : TreeNode) :
  scan_directory os p m c = Ok node -> In ch (child_list node) ->
  entry_node os m (c + 1) ch.
Proof.
  intros H Hch. apply scan_directory_inv in H.
  destruct H; unfold child_list in Hch; simpl in Hch; try contradiction.
  apply sort_desc_In, retained_In in Hch.
  destruct Hch as (e & He & Hl & [[Hd Hs] | [Hd ->]]);
    apply visible_In in He; destruct He as [He Hv].
  - eapply entry_dir; eauto.
  - eapply entry_file; eauto.
Qed.

Lemma nodes_at_entry_node (j : nat) :
  forall (p : string) (m c : Z) (node d : TreeNode),
  scan_directory os p m c = Ok node -> In d (nodes_at (S j) node) ->
  entry_node os m (c + Z.of_nat (S j)) d.
Proof.
  induction j as [|j IH]; intros p m c node d H Hd;
    simpl in Hd; apply in_flat_map in Hd; destruct Hd as (ch & Hch & Hd);
    pose proof (children_entry_node p m c node ch H Hch) as Ho.
  - simpl in Hd. destruct Hd as [<- | []]. exact Ho.
  - destruct Ho as [q entries e _ _ _ _ _ -> | q entries e _ _ _ _ _ Hs].
    + destruct Hd.
    + replace (c + Z.of_nat (S (S j))) with (c + 1 + Z.of_nat (S j)) by lia.
      eapply IH; [exact Hs | exact Hd].
Qed.

Lemma nodes_nodes_at (n d : TreeNode) :
  In d (nodes n) <-> exists j, In d (nodes_at j n).
Proof.
  split.
  - revert d. induction n as [nm p s t | nm p s t cs IH]
      using TreeNode_nested_ind; intros d Hd.
    + destruct Hd as [<- | []]. exists O. simpl. auto.
    + destruct Hd as [<- | Hd]; [exists O; simpl; auto|].
      apply in_flat_map in Hd. destruct Hd as (ch & Hch & Hd).
      rewrite Forall_forall in IH. destruct (IH ch Hch d Hd) as (j & Hj).
      exists (S j). simpl. apply in_flat_map. eauto.
  - intros (j & Hj). revert n d Hj.
    induction j as [|j IH]; intros n d Hj; simpl in Hj.
    + destruct Hj as [<- | []]. apply nodes_self.
    + apply in_flat_map in Hj. destruct Hj as (ch & Hch & Hj).
      eapply nodes_child; eauto.
Qed.

(** Every node of a scanned tree is the root or stands for an entry. *)
Lemma nodes_entry_node (p : string) (m c : Z) (node d : TreeNode) :
  scan_directory os p m c = Ok node -> In d (nodes node) ->
  d = node \/ exists c', c < c' /\ entry_node os m c' d.
Proof.
  intros H Hd. apply nodes_nodes_at in Hd. destruct Hd as ([|j] & Hj).
  - left. simpl in Hj. destruct Hj as [<- | []]. reflexivity.
  - right. exists (c + Z.of_nat (S j)). split; [lia|].
    eapply nodes_at_entry_node; eauto.
Qed.

(** Every node of a scanned tree has one of the five shapes, or is a file
    node built by the loop. *)
Lemma nodes_shape (p : string) (m c : Z) (node d : TreeNode) :
  scan_directory os p m c = Ok node -> In d (nodes node) ->
  (exists nm q s, d = Node nm q s File None) \/
  (exists q nm c', scan_shape os q nm m c' d).
Proof.
  intros H Hd. destruct (nodes_entry_node p m c node d H Hd)
    as [-> | (c' & _ & [q entries e _ _ _ _ _ -> | q entries e _ _ _ _ _ Hs])].
  - right. eauto using scan_directory_inv.
  - left. eauto.
  - right. eauto using scan_directory_inv.
Qed.

End Shape.

(** ** The POSIX path functions keep the name of an entry *)

Module PosixFacts.

Import Posix.

Lemma append_assoc (a b c : string) :
  ((a ++ b) ++ c = a ++ (b ++ c))%string.
Proof. induction a as [|x a IH]; simpl; [reflexivity | now rewrite IH]. Qed.

Lemma split_slash_not_nil (s : string) : split_slash s <> [].
Proof.
  destruct s as [|c s]; simpl; [discriminate|].
  destruct (is_slash c); [discriminate|].
  destruct (split_slash s); discriminate.
Qed.

Lemma split_slash_name (e : string) :
  has_slash e = false -> split_slash e = [e].
Proof.
  induction e as [|c e IH]; simpl; [reflexivity|].
  intros H. apply orb_false_iff in H. destruct H as [-> H].
  rewrite (IH H). reflexivity.
Qed.

Lemma split_slash_app (a e : string) :
  split_slash (a ++ String "/" e) = split_slash a ++ split_slash e.
Proof.
  induction a as [|c a IH]; simpl; [reflexivity|].
  destruct (is_slash c); rewrite IH; [reflexivity|].
  pose proof (split_slash_not_nil a) as Hne.
  destruct (split_slash a); [contradiction | reflexivity].
Qed.

Lemma ends_with_name_split (e x : string) :
  has_slash e = false -> ends_with_name e x ->
  exists cs, split_slash x = cs ++ [e].
Proof.
  intros He [-> | (pre & ->)].
  - exists []. apply split_slash_name, He.
  - exists (split_slash pre).
    rewrite split_slash_app, (split_slash_name e He). reflexivity.
Qed.

Lemma basename_ends_with_name (e x : string) :
  has_slash e = false -> ends_with_name e x -> basename x = e.
Proof.
  intros He Hx. destruct (ends_with_name_split e x He Hx) as (cs & Hcs).
  unfold basename. rewrite Hcs. apply last_last.
Qed.

Lemma endswith_slash_inv (a : string) :
  endswith_slash a = true -> exists pre, a = (pre ++ "/")%string.
Proof.
  induction a as [|c a IH]; simpl; [discriminate|].
  destruct a as [|c' a'].
  - intros H. apply Ascii.eqb_eq in H. subst c. exists "". reflexivity.
  - intros H. destruct (IH H) as (pre & Hpre). exists (String c pre).
    simpl. rewrite <- Hpre. reflexivity.
Qed.

Lemma ends_with_name_prepend (e x a : string) :
  ends_with_name e x -> ends_with_name e (a ++ String "/" x).
Proof.
  intros [-> | (pre & ->)]; right.
  - exists a. reflexivity.
  - exists (a ++ String "/" pre)%string. rewrite append_assoc. reflexivity.
Qed.

Lemma ends_with_name_join (e x a : string) :
  ends_with_name e x -> ends_with_name e (join a x).
Proof.
  intros Hx. unfold join.
  destruct (startswith_slash x); [exact Hx|].
  destruct (String.eqb_spec a "") as [-> | _]; [exact Hx|]. simpl.
  destruct (endswith_slash a) eqn:Ea.
  - destruct (endswith_slash_inv a Ea) as (pre & ->).
    rewrite append_assoc. simpl. apply ends_with_name_prepend, Hx.
  - apply ends_with_name_prepend, Hx.
Qed.

Lemma ends_with_name_slashes (e x : string) (i : nat) :
  ends_with_name e x -> ends_with_name e (slashes i ++ x).
Proof.
  intros Hx. induction i as [|i IH]; simpl; [exact Hx|].
  apply (ends_with_name_prepend e _ "" IH).
Qed.

Lemma ends_with_name_concat (e : string) (comps : list string) :
  ends_with_name e (String.concat "/" (comps ++ [e])).
Proof.
  induction comps as [|x comps IH]; simpl; [left; reflexivity|].
  destruct (comps ++ [e]) as [|y l] eqn:E.
  - destruct comps; discriminate.
  - apply ends_with_name_prepend, IH.
Qed.

Lemma ends_with_name_not_empty (e x : string) :
  e <> "" -> ends_with_name e x -> x <> "".
Proof.
  intros He [-> | (pre & ->)]; [exact He|]. destruct pre; discriminate.
Qed.

Lemma is_name_inv (e : string) :
  is_name e = true ->
  e <> "" /\ has_slash e = false /\
  (e =? "")%string = false /\ (e =? ".")%string = false /\
  (e =? "..")%string = false.
Proof.
  unfold is_name. rewrite !andb_true_iff, !negb_true_iff.
  intros [[[H1 H2] H3] H4]. repeat split; auto.
  apply String.eqb_neq, H1.
Qed.

Lemma norm_step_name (i : nat) (comps : list string) (e : string) :
  is_name e = true -> norm_step i comps e = comps ++ [e].
Proof.
  intros He. destruct (is_name_inv e He) as (_ & _ & H1 & H2 & H3).
  unfold norm_step. rewrite H1, H2, H3. reflexivity.
Qed.

Lemma normpath_ends_with_name (e x : string) :
  is_name e = true -> ends_with_name e x -> ends_with_name e (normpath x).
Proof.
  intros He Hx. destruct (is_name_inv e He) as (Hne & Hs & _).
  pose proof (ends_with_name_not_empty e x Hne Hx) as Hx0.
  destruct (ends_with_name_split e x Hs Hx) as (cs & Hcs).
  unfold normpath. destruct x as [|c x']; [congruence|].
  rewrite Hcs. generalize (initial_slashes (String c x')). intros i.
  rewrite fold_left_app. cbn [fold_left].
  rewrite (norm_step_name i _ e He).
  pose proof (ends_with_name_slashes e _ i
                (ends_with_name_concat e (fold_left (norm_step i) cs [])))
    as Hend.
  pose proof (ends_with_name_not_empty e _ Hne Hend) as Hpath.
  destruct (slashes i ++ _)%string; [congruence | exact Hend].
Qed.

(** The base name of the absolute path of an entry is the entry's name. *)
Lemma basename_abspath_join (cwd dir e : string) :
  is_name e = true -> basename (abspath cwd (join dir e)) = e.
Proof.
  intros He. destruct (is_name_inv e He) as (_ & Hs & _).
  apply basename_ends_with_name; [exact Hs|].
  assert (Hj : ends_with_name e (join dir e))
    by (apply ends_with_name_join; left; reflexivity).
  unfold abspath. destruct (startswith_slash (join dir e));
    apply normpath_ends_with_name; auto using ends_with_name_join.
Qed.

End PosixFacts.

(** An operating system with the POSIX path functions whose directories
    list names lists names in the sense of [lists_names]. *)
Lemma posix_lists_names (os : OS) (cwd : string) :
  abspath os = Posix.abspath cwd -> basename os = Posix.basename ->
  join os = Posix.join ->
  (forall dir entries e, listdir os dir = Done entries -> In e entries ->
     Posix.is_name e = true) ->
  lists_names os.
Proof.
  intros Ha Hb Hj Hl dir entries e Hdir He. rewrite Ha, Hb, Hj.
  specialize (Hl dir entries e Hdir He). split.
  - apply (PosixFacts.is_name_inv e Hl).
  - apply PosixFacts.basename_abspath_join, Hl.
Qed.

(** * The claims *)

(** ** The estimator has no second tier *)

(** X1 — whenever [du] ran but gave nothing usable (a non-zero exit status, no
    output, or output that is not a number) or timed out, the estimator
    answers 0; no listing and no file size is consulted. *)
Lemma get_size_with_du_failure (os : OS) (p : string) :
  parsed_kb os p = None ->
  (forall k, run_du os p <> Raise (OSError k)) ->
  get_size_with_du os p = Ok 0.
Proof.
  intros Hkb Hrun. pose proof (get_size_with_du_cases os p) as H.
  destruct (run_du os p) as [r | e]; rewrite H.
  - rewrite Hkb. reflexivity.
  - destruct e; try reflexivity. destruct (Hrun k). reflexivity.
Qed.

(** C1 — the claim: when the bulk measurement fails, times out or prints
    something unparseable, the estimator falls through to the manual
    recursive walk instead of reporting 0.  The code does not: on the file
    system [Demo.fs], whose files under [/r] add up to 4446 bytes for
    [get_folder_size_walk] (with fuel for its three levels or more),
    [get_size_with_du] answers 0 when [du] exits with status 1, when it
    times out and when its output is empty or not a number, and a scan cut
    off at the root reports a directory of size 0. *)
Theorem du_failure_reports_zero_not_walk :
  get_size_with_du (Demo.fs Demo.du_fails) "/r" = Ok 0 /\
  get_size_with_du (Demo.fs Demo.du_timeout) "/r" = Ok 0 /\
  get_size_with_du (Demo.fs Demo.du_garbled) "/r" = Ok 0 /\
  get_size_with_du (Demo.fs Demo.du_silent) "/r" = Ok 0 /\
  (forall n, get_folder_size_walk (Demo.fs Demo.du_fails) (3 + n) "/r"
             = 4446) /\
  scan_directory (Demo.fs Demo.du_fails) "/r" 0 0 =
    Ok (Node "r" "/r" 0 Dir (Some [])).
Proof. repeat split; intros; vm_compute; reflexivity. Qed.

(** ** Exceptions that leave the walker *)



(** C2 — the claim: Scan and EstimateSize never let an exception out, also
    when the measurement tool is missing.  The code lets one out: when
    there is no [du] to run, [subprocess.run] raises [FileNotFoundError],
    which [get_size_with_du] does not catch, and a scan whose root is at the
    depth cutoff raises it too.  One level down the loop's
    [except OSError] swallows it and the directory [b] is dropped from the
    tree. *)
Theorem missing_du_raises :
  get_size_with_du (Demo.fs Demo.du_missing) "/r" =
    Raise (OSError FileNotFoundError) /\
  scan_directory (Demo.fs Demo.du_missing) "/r" 0 0 =
    Raise (OSError FileNotFoundError) /\
  scan_directory (Demo.fs Demo.du_missing) "/r" 1 0 =
    Ok (Node "r" "/r" 100 Dir (Some [Node "a" "/r/a" 100 File None])).
Proof. repeat split; vm_compute; reflexivity. Qed.

(** ** Sizes and order of the children *)

(** C3 — in every tree a scan returns, every node that has children has
    as its size the exact sum of the sizes of its children. *)
Theorem directory_size_is_sum_of_children
    (os : OS) (p : string) (m c : Z) (root : TreeNode) :
  scan_directory os p m c = Ok root ->
  forall d, In d (nodes root) ->
  forall x cs, children d = Some (x :: cs) -> size d = total (x :: cs).
Proof.
  intros H d Hd x cs Hcs.
  destruct (nodes_shape os p m c root d H Hd)
    as [(nm & q & s & ->) | (q & nm & c' & Hshape)]; [discriminate|].
  destruct Hshape; simpl in Hcs; try discriminate.
  injection Hcs as Hcs. rewrite <- Hcs. unfold size at 1. symmetry.
  apply total_sort_desc.
Qed.

Lemma directory_size_is_sum_of_children_witness :
  scan_directory (Demo.fs Demo.du_ok) "/r" 3 0 = Ok Demo.tree3 /\
  size Demo.tree3 =
  total [Node "b" "/r/b" 4296 Dir
           (Some [Node "e" "/r/b/e" 4096 Dir
                    (Some [Node "f" "/r/b/e/f" 4096 File None]);
                  Node "c" "/r/b/c" 200 File None]);
         Node "a" "/r/a" 100 File None].
Proof.
  split; [vm_compute; reflexivity|].
  apply (directory_size_is_sum_of_children
           (Demo.fs Demo.du_ok) "/r" 3 0 Demo.tree3);
    [vm_compute; reflexivity | simpl; auto | reflexivity].
Defined.

(** C8 — in every tree a scan returns, the children of every node are in
    non-increasing order of size: each one is at least as large as the
    next.  Nothing is said about children of equal size. *)
Theorem children_sorted_by_size_descending
    (os : OS) (p : string) (m c : Z) (root : TreeNode) :
  scan_directory os p m c = Ok root ->
  forall d, In d (nodes root) ->
  forall cs, children d = Some cs -> Sorted size_ge cs.
Proof.
  intros H d Hd cs Hcs.
  destruct (nodes_shape os p m c root d H Hd)
    as [(nm & q & s & ->) | (q & nm & c' & Hshape)]; [discriminate|].
  destruct Hshape; simpl in Hcs; try discriminate;
    injection Hcs as <-; try constructor.
  apply sort_desc_sorted.
Qed.

Lemma children_sorted_by_size_descending_witness :
  scan_directory (Demo.fs Demo.du_ok) "/r" 3 0 = Ok Demo.tree3 /\
  Sorted size_ge
    [Node "e" "/r/b/e" 4096 Dir (Some [Node "f" "/r/b/e/f" 4096 File None]);
     Node "c" "/r/b/c" 200 File None].
Proof.
  split; [vm_compute; reflexivity|].
  apply (children_sorted_by_size_descending
           (Demo.fs Demo.du_ok) "/r" 3 0 Demo.tree3
           ltac:(vm_compute; reflexivity)
           (Node "b" "/r/b" 4296 Dir
              (Some [Node "e" "/r/b/e" 4096 Dir
                       (Some [Node "f" "/r/b/e/f" 4096 File None]);
                     Node "c" "/r/b/c" 200 File None])));
    [simpl; auto | reflexivity].
Defined.

(** ** Errors while listing and while looping *)

Lemma scan_entries_app os self q m c before after acc tot :
  scan_entries os self q m c (before ++ after) acc tot =
  match scan_entries os self q m c before acc tot with
  | Ok (acc', tot') => scan_entries os self q m c after acc' tot'
  | Raise e => Raise e
  end.
Proof.
  revert acc tot. induction before as [|e rest IH]; intros acc tot; simpl.
  - reflexivity.
  - destruct (scan_entry os self q m c e) as [[child|]|ex]; auto.
    destruct (is_OSError ex); auto.
Qed.

(** What the code does with an error of the listing when the estimator
    returns: on [PermissionError] the node gets the total the estimator
    returns and no children; on any other [OSError] the node has size 0 and
    no children; and an [OSError] raised for one entry of the loop drops
    that entry alone.  When the listing succeeds the scan returns a
    node. *)
Lemma listing_errors_are_absorbed (os : OS) (p : string) (m c : Z) :
  isfile os (abspath os p) = false -> c < m ->
  let q := abspath os p in
  let nm := str_or (basename os q) q in
  (listdir os q = Failed PermissionError ->
   forall size, get_size_with_du os q = Ok size ->
   scan_directory os p m c = Ok (Node nm q size Dir (Some []))) /\
  (forall k, k <> PermissionError -> listdir os q = Failed k ->
   scan_directory os p m c = Ok (Node nm q 0 Dir (Some []))) /\
  (forall entries, listdir os q = Done entries ->
   exists node, scan_directory os p m c = Ok node) /\
  (forall self before e after acc tot ex,
   scan_entry os self q m c e = Raise ex -> is_OSError ex = true ->
   scan_entries os self q m c (before ++ e :: after) acc tot =
   scan_entries os self q m c (before ++ after) acc tot).
Proof.
  intros Hf Hc q nm. change (isfile os q = false) in Hf.
  assert (Heq : scan_directory os p m c =
                match listdir os q with
                | Failed PermissionError =>
                    size <- get_size_with_du os q ;;
                    Ok (Node nm q size Dir (Some []))
                | Failed _ => Ok (Node nm q 0 Dir (Some []))
                | Done entries =>
                    let kept :=
                      retained os (scan_directory os) q m c (visible entries)
                    in Ok (Node nm q (total kept) Dir (Some (sort_desc kept)))
                end).
  { rewrite scan_directory_eq. unfold scan_body. fold q. fold nm.
    rewrite Hf. destruct (Z.geb_spec c m); [lia|].
    destruct (listdir os q) as [entries|]; [|reflexivity].
    fold (visible entries).
    rewrite scan_entries_spec by apply scan_directory_raises. reflexivity. }
  repeat split.
  - intros Hl size Hs. rewrite Heq, Hl, Hs. reflexivity.
  - intros k Hk Hl. rewrite Heq, Hl. destruct k; congruence.
  - intros entries Hl. rewrite Heq, Hl. eauto.
  - intros self before e after acc tot ex He Hex.
    rewrite !scan_entries_app.
    destruct (scan_entries os self q m c before acc tot) as [[acc' tot']|];
      [|reflexivity].
    simpl. rewrite He, Hex. reflexivity.
Qed.

(** C5 — the claim: a permission error on listing makes the walker
    return the node with the estimator's total and no children, and no
    listing error ends the scan.  The code does not on the permission path
    when no [du] can be started: the listing of [/r/b] raises
    [PermissionError], the handler calls the estimator, and the
    [FileNotFoundError] of [subprocess.run], which [get_size_with_du] does
    not catch, leaves [scan_directory]; when [/r/b] is met one level down,
    the loop's [except OSError] drops it from the tree instead of keeping
    it without children. *)
Theorem permission_error_with_missing_du_raises :
  isfile (Demo.fs_denied Demo.du_missing) "/r/b" = false /\
  listdir (Demo.fs_denied Demo.du_missing) "/r/b" = Failed PermissionError /\
  scan_directory (Demo.fs_denied Demo.du_missing) "/r/b" 3 0 =
    Raise (OSError FileNotFoundError) /\
  scan_directory (Demo.fs_denied Demo.du_missing) "/r" 3 0 =
    Ok (Node "r" "/r" 100 Dir (Some [Node "a" "/r/a" 100 File None])) /\
  scan_directory (Demo.fs_denied Demo.du_ok) "/r" 3 0 =
    Ok (Node "r" "/r" 12388 Dir
             (Some [Node "b" "/r/b" 12288 Dir (Some []);
                    Node "a" "/r/a" 100 File None])).
Proof. repeat split; vm_compute; reflexivity. Qed.

(** ** Sizes that come from the estimator *)

(** C10 — a size [get_size_with_du] returns is 0 or 1024 times the
    kilobyte count parsed from the output of [du], hence a multiple of
    1024, and not negative when the count is not; the directory nodes sized
    by the estimator (at the depth cutoff or after a permission error) carry
    such a size. *)
Theorem estimator_sizes_are_multiples_of_1024 (os : OS) :
  (forall p s, get_size_with_du os p = Ok s ->
     (s = 0 \/ exists kb, parsed_kb os p = Some kb /\ s = kb * 1024) /\
     (1024 | s) /\
     ((forall kb, parsed_kb os p = Some kb -> 0 <= kb) -> 0 <= s)) /\
  (forall p m c node,
     scan_directory os p m c = Ok node ->
     isfile os (abspath os p) = false ->
     c >= m \/ listdir os (abspath os p) = Failed PermissionError ->
     type node = Dir /\ children node = Some [] /\
     get_size_with_du os (path node) = Ok (size node) /\
     (1024 | size node) /\
     ((forall kb, parsed_kb os (path node) = Some kb -> 0 <= kb) ->
      0 <= size node)).
Proof.
  assert (Hdu : forall p s, get_size_with_du os p = Ok s ->
     (s = 0 \/ exists kb, parsed_kb os p = Some kb /\ s = kb * 1024) /\
     (1024 | s) /\
     ((forall kb, parsed_kb os p = Some kb -> 0 <= kb) -> 0 <= s)).
  { intros p s H. pose proof (get_size_with_du_cases os p) as Hc.
    destruct (run_du os p) as [r | e]; rewrite Hc in H.
    - injection H as <-. destruct (parsed_kb os p) as [kb|].
      + split; [right; eauto|]. split; [exists kb; reflexivity|].
        intros Hkb. specialize (Hkb kb eq_refl). lia.
      + split; [auto|]. split; [exists 0; reflexivity | lia].
    - destruct (caught_by_du e); [|discriminate]. injection H as <-.
      split; [auto|]. split; [exists 0; reflexivity | lia]. }
  split; [exact Hdu|].
  intros p m c node H Hf Hwhy. apply scan_directory_inv in H.
  destruct H as [Hf' | s _ _ Hs | s _ _ _ Hs | k _ Hlt Hl Hk
                 | entries _ Hlt Hl]; simpl.
  - congruence.
  - destruct (Hdu _ _ Hs) as (_ & Hdiv & Hpos). auto.
  - destruct (Hdu _ _ Hs) as (_ & Hdiv & Hpos). auto.
  - destruct Hwhy as [Hge | Hl']; [lia | congruence].
  - destruct Hwhy as [Hge | Hl']; [lia | congruence].
Qed.

Lemma estimator_sizes_are_multiples_of_1024_witness :
  get_size_with_du (Demo.fs Demo.du_ok) "/r/b" = Ok 12288 /\
  (12288 = 0 \/
   exists kb, parsed_kb (Demo.fs Demo.du_ok) "/r/b" = Some kb /\
              12288 = kb * 1024) /\
  (1024 | 12288) /\
  0 <= 12288.
Proof.
  assert (H : get_size_with_du (Demo.fs Demo.du_ok) "/r/b" = Ok 12288)
    by (vm_compute; reflexivity).
  destruct (proj1 (estimator_sizes_are_multiples_of_1024
                     (Demo.fs Demo.du_ok)) "/r/b" 12288 H)
    as (H1 & H2 & H3).
  repeat split; auto.
  apply H3. intros kb Hkb. vm_compute in Hkb. injection Hkb as <-. lia.
Defined.

(** ** Flattening *)

Lemma flatten_children (cs : list TreeNode) :
  Forall (fun c => forall acc,
            flatten_tree c (Some acc) = acc ++ map item_of (nodes c)) cs ->
  forall items,
    fold_left (fun items child => flatten_tree child (Some items)) cs items
    = items ++ map item_of (flat_map nodes cs).
Proof.
  induction 1 as [|c cs Hc _ IH]; intros items; simpl.
  - symmetry. apply app_nil_r.
  - rewrite IH, Hc, map_app, app_assoc. reflexivity.
Qed.

(** Appending to the list that was passed in is appending the nodes in
    pre-order. *)
Lemma flatten_tree_acc (t : TreeNode) :
  forall acc, flatten_tree t (Some acc) = acc ++ map item_of (nodes t).
Proof.
  induction t as [nm p s k | nm p s k cs IH] using TreeNode_nested_ind;
    intros acc; simpl.
  - reflexivity.
  - rewrite (flatten_children cs IH), <- app_assoc. reflexivity.
Qed.

Lemma flatten_tree_nodes (t : TreeNode) :
  flatten_tree t None = map item_of (nodes t).
Proof.
  destruct t as [nm p s k [cs|]]; simpl; [|reflexivity].
  rewrite flatten_children; [reflexivity|].
  apply Forall_forall. intros c _. apply flatten_tree_acc.
Qed.



(** ** Entries a scan does not see *)

Section Unlisted.

Variable os : OS.
Variable keep : string -> string -> bool.

(** Every entry [keep] drops is one the walker skips. *)
Hypothesis dropped_is_skipped :
  forall p e, keep p e = false ->
    startswith_dot e = true \/ islink os (join os p e) = true.

Lemma scan_entries_with_listing self q m c entries acc tot :
  scan_entries (with_listing keep os) self q m c entries acc tot =
  scan_entries os self q m c entries acc tot.
Proof.
  revert acc tot. induction entries as [|e rest IH]; intros acc tot.
  - reflexivity.
  - simpl. change (scan_entry (with_listing keep os) self q m c e)
      with (scan_entry os self q m c e).
    destruct (scan_entry os self q m c e) as [[child|]|ex];
      rewrite ?IH; reflexivity.
Qed.

Lemma scan_entries_dropped self q m c entries acc tot :
  scan_entries os self q m c (visible (filter (keep q) entries)) acc tot =
  scan_entries os self q m c (visible entries) acc tot.
Proof.
  revert acc tot. induction entries as [|e rest IH]; intros acc tot.
  - reflexivity.
  - cbn [filter visible]. fold (visible rest).
    destruct (keep q e) eqn:Ek.
    + cbn [filter visible]. fold (visible (filter (keep q) rest)).
      destruct (negb (startswith_dot e)); [|apply IH].
      simpl. rewrite IH.
      destruct (scan_entry os self q m c e) as [[child|]|ex];
        rewrite ?IH; reflexivity.
    + rewrite IH. destruct (dropped_is_skipped q e Ek) as [-> | Hl].
      * reflexivity.
      * destruct (negb (startswith_dot e)); [|reflexivity].
        simpl. unfold scan_entry. rewrite Hl. reflexivity.
Qed.

Lemma scan_body_with_listing self self' p m c :
  (forall q, self' q m (c + 1) = self q m (c + 1)) ->
  scan_body (with_listing keep os) self' p m c = scan_body os self p m c.
Proof.
  intros Hself. unfold scan_body.
  change (abspath (with_listing keep os)) with (abspath os).
  change (basename (with_listing keep os)) with (basename os).
  change (isfile (with_listing keep os)) with (isfile os).
  change (get_file_size (with_listing keep os)) with (get_file_size os).
  change (get_size_with_du (with_listing keep os))
    with (get_size_with_du os).
  destruct (isfile os (abspath os p)); [reflexivity|].
  destruct (c >=? m); [reflexivity|].
  change (listdir (with_listing keep os) (abspath os p))
    with (match listdir os (abspath os p) with
          | Done entries => Done (filter (keep (abspath os p)) entries)
          | Failed k => Failed k
          end).
  destruct (listdir os (abspath os p)) as [entries | k]; [|reflexivity].
  fold (visible (filter (keep (abspath os p)) entries)).
  fold (visible entries).
  rewrite scan_entries_with_listing.
  rewrite (scan_entries_ext os self' self _ _ _ _ _ _ Hself).
  rewrite scan_entries_dropped. reflexivity.
Qed.

Lemma scan_rec_with_listing (fuel : nat) :
  forall p m c,
    scan_rec (with_listing keep os) fuel p m c = scan_rec os fuel p m c.
Proof.
  induction fuel as [|fuel IH]; intros p m c; simpl;
    apply scan_body_with_listing; auto.
Qed.

Lemma scan_directory_with_listing (p : string) (m c : Z) :
  scan_directory (with_listing keep os) p m c = scan_directory os p m c.
Proof. apply scan_rec_with_listing. Qed.

End Unlisted.

(** The nodes below a child are nodes below the root. *)
Lemma nodes_below_child (root ch d : TreeNode) :
  In ch (child_list root) -> In d (nodes ch) ->
  exists j, In d (nodes_at (S j) root).
Proof.
  intros Hch Hd. apply nodes_nodes_at in Hd. destruct Hd as (j & Hj).
  exists j. simpl. apply in_flat_map. eauto.
Qed.

(** The claim of C6 read as it stands fails: a hidden file is part of
    the total of every directory above it once a directory on the way is
    sized by the estimator.  With [max_depth = 1] the directory [/v/b] is
    sized by [du], which counts the hidden file [.cache] in it: the one
    megabyte of that file is in the size of [/v/b] and of [/v], and is gone
    from both when the file is not there. *)
Lemma hidden_file_counted_through_du :
  scan_directory (Demo.cache_fs true) "/v" 1 0 =
    Ok (Node "v" "/v" 1048676 Dir
             (Some [Node "b" "/v/b" 1048576 Dir (Some []);
                    Node "a" "/v/a" 100 File None])) /\
  scan_directory (Demo.cache_fs false) "/v" 1 0 =
    Ok (Node "v" "/v" 100 Dir
             (Some [Node "a" "/v/a" 100 File None;
                    Node "b" "/v/b" 0 Dir (Some [])])) /\
  1048676 <> 100.
Proof. repeat split; try (vm_compute; reflexivity). discriminate. Qed.

(** C6, amended — hidden entries are left out of the traversal and of
    the totals the walker adds up itself: a scan returns what it would
    return if no directory listed a hidden entry, the answers of [du] being
    the same (what [du] counts at the depth cutoff or after a permission
    error is taken as it is); and when listings hold names, no node below
    the root of a scanned tree has a name that begins with a dot.  The root
    is named after the path that was asked for. *)
Theorem hidden_entries_are_excluded (os : OS) :
  (forall p m c,
     scan_directory (without_hidden os) p m c = scan_directory os p m c) /\
  (lists_names os ->
   forall p m c root, scan_directory os p m c = Ok root ->
   forall ch, In ch (child_list root) ->
   forall d, In d (nodes ch) -> startswith_dot (name d) = false).
Proof.
  split.
  - intros p m c. apply scan_directory_with_listing.
    intros q e H. left. apply negb_false_iff. exact H.
  - intros Hnames p m c root H ch Hch d Hd.
    destruct (nodes_below_child root ch d Hch Hd) as (j & Hj).
    destruct (nodes_at_entry_node os j p m c root d H Hj)
      as [q entries e Hl He Hv _ _ -> | q entries e Hl He Hv _ _ Hs].
    + exact Hv.
    + apply scan_directory_path in Hs. destruct Hs as [_ ->].
      destruct (Hnames q entries e Hl He) as [Hne ->].
      destruct e; [congruence | exact Hv].
Qed.

Lemma demo_lists_names (du : string -> result CompletedProcess) :
  lists_names (Demo.fs du).
Proof.
  apply (posix_lists_names (Demo.fs du) "/"); try reflexivity.
  intros dir entries e Hl He. cbn in Hl.
  repeat match type of Hl with
         | context [String.eqb dir ?s] =>
             destruct (String.eqb_spec dir s) as [-> | _]
         end;
    try discriminate; injection Hl as <-; simpl in He;
    repeat (destruct He as [<- | He]; [reflexivity|]);
    destruct He.
Qed.

Lemma hidden_entries_are_excluded_witness :
  lists_names (Demo.fs Demo.du_ok) /\
  scan_directory (Demo.fs Demo.du_ok) "/r" 3 0 = Ok Demo.tree3 /\
  startswith_dot (name (Node "c" "/r/b/c" 200 File None)) = false.
Proof.
  split; [apply demo_lists_names|].
  split; [vm_compute; reflexivity|].
  apply (proj2 (hidden_entries_are_excluded (Demo.fs Demo.du_ok))
           (demo_lists_names Demo.du_ok) "/r" 3 0 Demo.tree3
           ltac:(vm_compute; reflexivity)
           (Node "b" "/r/b" 4296 Dir
              (Some [Node "e" "/r/b/e" 4096 Dir
                       (Some [Node "f" "/r/b/e/f" 4096 File None]);
                     Node "c" "/r/b/c" 200 File None])));
    simpl; auto.
Defined.

(** ** Symbolic links *)

Section Links.

Variable os : OS.





End Links.



(** ** The depth cutoff *)


(** A node at depth [j] of a scan from depth [c] is a file node of the
    loop or what a scan at depth [c + j] returned. *)
Lemma nodes_at_scanned (os : OS) (p : string) (m c : Z) (root n : TreeNode)
    (j : nat) :
  scan_directory os p m c = Ok root -> In n (nodes_at j root) ->
  (type n = File /\ children n = None) \/
  exists q, scan_directory os q m (c + Z.of_nat j) = Ok n.
Proof.
  intros H Hn. destruct j as [|j].
  - simpl in Hn. destruct Hn as [<- | []]. right. exists p.
    rewrite Z.add_0_r. exact H.
  - destruct (nodes_at_entry_node os j p m c root n H Hn)
      as [q entries e _ _ _ _ _ -> | q entries e _ _ _ _ _ Hs]; eauto.
Qed.

(** The nodes one level further down are the children of the nodes of a
    level. *)
Lemma nodes_at_succ (j : nat) :
  forall n d, In d (nodes_at (S j) n) ->
  exists x, In x (nodes_at j n) /\ In d (child_list x).
Proof.
  induction j as [|j IH]; intros n d Hd.
  - simpl in Hd. apply in_flat_map in Hd. destruct Hd as (x & Hx & [<- | []]).
    exists n. simpl. auto.
  - change (In d (flat_map (nodes_at (S j)) (child_list n))) in Hd.
    apply in_flat_map in Hd. destruct Hd as (ch & Hch & Hd).
    destruct (IH ch d Hd) as (x & Hx & Hdx).
    exists x. split; [|exact Hdx]. simpl. apply in_flat_map. eauto.
Qed.




(** * Further properties of the code *)

(** ** The estimator *)

Lemma get_size_with_du_failure_witness :
  parsed_kb (Demo.fs Demo.du_garbled) "/r" = None /\
  get_size_with_du (Demo.fs Demo.du_garbled) "/r" = Ok 0.
Proof.
  assert (H : parsed_kb (Demo.fs Demo.du_garbled) "/r" = None)
    by (vm_compute; reflexivity).
  split; [exact H|].
  apply (get_size_with_du_failure (Demo.fs Demo.du_garbled) "/r" H).
  intros k. discriminate.
Defined.

Lemma get_size_with_du_raise_source (os : OS) (p : string) (e : exn) :
  get_size_with_du os p = Raise e ->
  run_du os p = Raise e /\ is_OSError e = true.
Proof.
  pose proof (get_size_with_du_cases os p) as H.
  destruct (run_du os p) as [r | e']; rewrite H; [discriminate|].
  destruct e'; simpl; try discriminate. intros [= <-]. auto.
Qed.

(** X2 — [get_size_with_du] raises exactly when [subprocess.run] raised an
    [OSError], and then that one: bad output, a bad exit status and a
    timeout never raise. *)
Theorem get_size_with_du_raises_iff (os : OS) (p : string) (e : exn) :
  get_size_with_du os p = Raise e <->
  run_du os p = Raise e /\ is_OSError e = true.
Proof.
  split; [apply get_size_with_du_raise_source|].
  intros [Hrun He]. pose proof (get_size_with_du_cases os p) as H.
  rewrite Hrun in H. rewrite H. destruct e; try discriminate. reflexivity.
Qed.

Lemma get_size_with_du_raises_iff_witness :
  run_du (Demo.fs Demo.du_missing) "/r" = Raise (OSError FileNotFoundError) /\
  get_size_with_du (Demo.fs Demo.du_missing) "/r" =
    Raise (OSError FileNotFoundError).
Proof.
  assert (H : run_du (Demo.fs Demo.du_missing) "/r" =
              Raise (OSError FileNotFoundError)) by reflexivity.
  split; [exact H|].
  apply (proj2 (get_size_with_du_raises_iff (Demo.fs Demo.du_missing) "/r"
                  (OSError FileNotFoundError))).
  split; [exact H | reflexivity].
Defined.

(** ** Exceptions of the walker *)

(** Progress lines apart, an exception leaves [scan_directory] only from
    the estimator called for the directory that was asked for, at the depth
    cutoff or after a permission error, and it is the [OSError] of
    [subprocess.run]. *)
Lemma scan_directory_raise_inv (os : OS) (p : string) (m c : Z) (e : exn) :
  scan_directory os p m c = Raise e ->
  isfile os (abspath os p) = false /\
  (c >= m \/ listdir os (abspath os p) = Failed PermissionError) /\
  run_du os (abspath os p) = Raise e /\ is_OSError e = true.
Proof.
  rewrite scan_directory_eq. unfold scan_body.
  destruct (isfile os (abspath os p)); [discriminate|].
  assert (Hdu : (size <- get_size_with_du os (abspath os p) ;;
                 Ok (Node (str_or (basename os (abspath os p)) (abspath os p))
                          (abspath os p) size Dir (Some []))) = Raise e ->
                run_du os (abspath os p) = Raise e /\ is_OSError e = true).
  { unfold bind.
    destruct (get_size_with_du os (abspath os p)) eqn:E; [discriminate|].
    intros [= <-]. apply get_size_with_du_raise_source, E. }
  destruct (Z.geb_spec c m) as [Hc | Hc].
  - intros H. split; [reflexivity|]. split; [left; lia | auto].
  - destruct (listdir os (abspath os p)) as [entries | []];
      try discriminate.
    + rewrite scan_entries_spec by apply scan_directory_raises. discriminate.
    + intros H. split; [reflexivity|]. split; [right; reflexivity | auto].
Qed.

(** ** Kinds and sizes of the nodes *)

(** What the code fixes for one node of a scanned tree. *)
Lemma scan_shape_local (os : OS) (q nm : string) (m c : Z) (d : TreeNode) :
  scan_shape os q nm m c d ->
  (type d = File /\ children d = None /\
   exists q, size d = get_file_size os q) \/
  (type d = Dir /\ exists cs, children d = Some cs /\
   (size d = total cs \/
    (cs = [] /\ exists q, get_size_with_du os q = Ok (size d)))).
Proof.
  intros Hshape. destruct Hshape; simpl.
  - left. eauto.
  - right. split; [reflexivity|]. exists []. eauto 6.
  - right. split; [reflexivity|]. exists []. eauto 6.
  - right. split; [reflexivity|]. exists []. auto.
  - right. split; [reflexivity|]. eexists. split; [reflexivity|].
    left. symmetry. apply total_sort_desc.
Qed.

Lemma scanned_node_local (os : OS) (p : string) (m c : Z)
    (root d : TreeNode) :
  scan_directory os p m c = Ok root -> In d (nodes root) ->
  (type d = File /\ children d = None /\
   exists q, size d = get_file_size os q) \/
  (type d = Dir /\ exists cs, children d = Some cs /\
   (size d = total cs \/
    (cs = [] /\ exists q, get_size_with_du os q = Ok (size d)))).
Proof.
  intros H Hd.
  destruct (nodes_entry_node os p m c root d H Hd)
    as [-> | (c' & _ & [q es e _ _ _ _ _ -> | q es e _ _ _ _ _ Hs])].
  - eapply scan_shape_local, scan_directory_inv, H.
  - left. simpl. eauto.
  - eapply scan_shape_local, scan_directory_inv, Hs.
Qed.

(** X5 — in a scanned tree a file node has no [children] key and a directory
    node always has one: the kind of a node tells whether the key is
    there. *)
Theorem scanned_kind_matches_children (os : OS) (p : string) (m c : Z)
    (root : TreeNode) :
  scan_directory os p m c = Ok root ->
  forall d, In d (nodes root) ->
  (type d = File /\ children d = None) \/
  (type d = Dir /\ exists cs, children d = Some cs).
Proof.
  intros H d Hd.
  destruct (scanned_node_local os p m c root d H Hd)
    as [(Ht & Hc & _) | (Ht & cs & Hc & _)]; eauto.
Qed.

Lemma scanned_kind_matches_children_witness :
  scan_directory (Demo.fs Demo.du_ok) "/r" 1 0 = Ok Demo.tree1 /\
  ((type (Node "b" "/r/b" 12288 Dir (Some [])) = File /\
    children (Node "b" "/r/b" 12288 Dir (Some [])) = None) \/
   (type (Node "b" "/r/b" 12288 Dir (Some [])) = Dir /\
    exists cs, children (Node "b" "/r/b" 12288 Dir (Some [])) = Some cs)).
Proof.
  split; [vm_compute; reflexivity|].
  apply (scanned_kind_matches_children (Demo.fs Demo.du_ok) "/r" 1 0
           Demo.tree1 ltac:(vm_compute; reflexivity)).
  simpl. auto.
Defined.

Lemma get_file_size_not_negative (os : OS) (q : string) :
  sizes_not_negative os -> 0 <= get_file_size os q.
Proof.
  intros [Hsz _]. unfold get_file_size.
  destruct (getsize os q) as [s|] eqn:E; [eauto | lia].
Qed.

Lemma get_size_with_du_not_negative (os : OS) (q : string) (s : Z) :
  sizes_not_negative os -> get_size_with_du os q = Ok s -> 0 <= s.
Proof.
  intros [_ Hkb] H. pose proof (get_size_with_du_cases os q) as Hc.
  destruct (run_du os q) as [r | e]; rewrite Hc in H.
  - injection H as <-. destruct (parsed_kb os q) as [kb|] eqn:E; [|lia].
    specialize (Hkb q kb E). lia.
  - destruct (caught_by_du e); [|discriminate]. injection H as <-. lia.
Qed.

Lemma total_not_negative (cs : list TreeNode) :
  Forall (fun c => 0 <= size c) cs -> 0 <= total cs.
Proof. induction 1; simpl; lia. Qed.

(** Every node whose descendants are as [scanned_node_local] says has a
    size that is not negative. *)
Lemma local_sizes_not_negative (os : OS) (t : TreeNode) :
  sizes_not_negative os ->
  (forall d, In d (nodes t) ->
     (type d = File /\ children d = None /\
      exists q, size d = get_file_size os q) \/
     (type d = Dir /\ exists cs, children d = Some cs /\
      (size d = total cs \/
       (cs = [] /\ exists q, get_size_with_du os q = Ok (size d))))) ->
  forall d, In d (nodes t) -> 0 <= size d.
Proof.
  intros Hos.
  induction t as [nm p s k | nm p s k cs IH] using TreeNode_nested_ind;
    intros Hloc.
  - intros d [<- | []].
    destruct (Hloc _ (nodes_self _)) as [(_ & _ & q & Hq) | (_ & cs & Hc & _)];
      [|discriminate].
    rewrite Hq. apply get_file_size_not_negative, Hos.
  - assert (Hcs : Forall (fun c => forall d, In d (nodes c) -> 0 <= size d) cs).
    { rewrite Forall_forall in IH |- *. intros ch Hch. apply IH; [exact Hch|].
      intros d Hd. apply Hloc. eapply nodes_child; eauto. }
    apply nodes_Forall; [|exact Hcs].
    destruct (Hloc _ (nodes_self _))
      as [(_ & Hc & _) | (_ & cs' & Hc & [Hsz | (_ & q & Hq)])];
      try discriminate.
    + injection Hc as <-. rewrite Hsz. apply total_not_negative.
      rewrite Forall_forall in Hcs |- *. intros ch Hch.
      apply (Hcs ch Hch), nodes_self.
    + eapply get_size_with_du_not_negative; eauto.
Qed.

(** X6 — when file sizes and the counts printed by [du] are not negative, no
    node of a scanned tree has a negative size. *)
Theorem scanned_sizes_not_negative (os : OS) (p : string) (m c : Z)
    (root : TreeNode) :
  sizes_not_negative os ->
  scan_directory os p m c = Ok root ->
  forall d, In d (nodes root) -> 0 <= size d.
Proof.
  intros Hos H. apply (local_sizes_not_negative os root Hos).
  intros d Hd. exact (scanned_node_local os p m c root d H Hd).
Qed.

(** X7 — the size of the root of a scanned tree is the sum of the sizes of the
    nodes without children in it: every file and every directory that was
    not enumerated, or was empty, is counted once. *)
Theorem scanned_size_is_leaf_total (os : OS) (p : string) (m c : Z)
    (root : TreeNode) :
  scan_directory os p m c = Ok root -> size root = leaf_total root.
Proof.
  intros H.
  assert (Hloc : forall d, In d (nodes root) ->
            forall x cs, children d = Some (x :: cs) ->
                         size d = total (x :: cs)).
  { intros d Hd x cs Hc.
    destruct (scanned_node_local os p m c root d H Hd)
      as [(_ & Hn & _) | (_ & cs' & Hc' & [Hsz | (Hnil & _)])];
      congruence. }
  clear H. revert Hloc.
  induction root as [nm q s k | nm q s k cs IH] using TreeNode_nested_ind;
    intros Hloc; [reflexivity|].
  destruct cs as [|x cs]; [reflexivity|].
  rewrite (Hloc _ (nodes_self _) x cs eq_refl).
  change (leaf_total (Node nm q s k (Some (x :: cs))))
    with (fold_right (fun c acc => leaf_total c + acc) 0 (x :: cs)).
  assert (Hch : Forall (fun c => size c = leaf_total c) (x :: cs)).
  { rewrite Forall_forall in IH |- *. intros ch Hch. apply IH; [exact Hch|].
    intros d Hd. apply Hloc. eapply nodes_child; eauto. }
  clear - Hch. induction Hch as [|y l Hy _ IHl]; simpl; [reflexivity|].
  simpl in IHl. rewrite Hy, IHl. reflexivity.
Qed.

Lemma scanned_size_is_leaf_total_witness :
  scan_directory (Demo.fs Demo.du_ok) "/r" 3 0 = Ok Demo.tree3 /\
  size Demo.tree3 = 4096 + 200 + 100.
Proof.
  split; [vm_compute; reflexivity|].
  rewrite (scanned_size_is_leaf_total (Demo.fs Demo.du_ok) "/r" 3 0
             Demo.tree3 ltac:(vm_compute; reflexivity)).
  reflexivity.
Defined.

Lemma demo_sizes_not_negative : sizes_not_negative (Demo.fs Demo.du_ok).
Proof.
  split.
  - intros p s H. cbn in H.
    repeat match type of H with
           | context [String.eqb p ?k] =>
               destruct (String.eqb_spec p k) as [-> | _]
           end;
      try discriminate; injection H as <-; lia.
  - intros p kb H. unfold parsed_kb in H. cbn [run_du Demo.fs] in H.
    unfold Demo.du_ok, Demo.lookup in H.
    repeat match type of H with
           | context [String.eqb p ?k] =>
               destruct (String.eqb_spec p k) as [-> | _]
           end;
      vm_compute in H; try discriminate; injection H as <-; lia.
Qed.

Lemma scanned_sizes_not_negative_witness :
  sizes_not_negative (Demo.fs Demo.du_ok) /\
  scan_directory (Demo.fs Demo.du_ok) "/r" 1 0 = Ok Demo.tree1 /\
  0 <= size (Node "b" "/r/b" 12288 Dir (Some [])).
Proof.
  split; [exact demo_sizes_not_negative|].
  split; [vm_compute; reflexivity|].
  apply (scanned_sizes_not_negative (Demo.fs Demo.du_ok) "/r" 1 0 Demo.tree1
           demo_sizes_not_negative ltac:(vm_compute; reflexivity)).
  simpl. auto.
Defined.

(** ** The stable sort *)

Section SortFacts.

Variable A : Type.
Variable key : A -> Z.

Lemma insert_by_desc_perm (x : A) (l : list A) :
  Permutation (x :: l) (insert_by_desc key x l).
Proof.
  induction l as [|y l IH]; simpl; auto.
  destruct (key x <? key y); auto.
  rewrite perm_swap. constructor. exact IH.
Qed.

Lemma sort_by_desc_perm (l : list A) : Permutation l (sort_by_desc key l).
Proof.
  induction l as [|x l IH]; simpl; auto.
  rewrite <- insert_by_desc_perm. constructor. exact IH.
Qed.

Lemma insert_by_desc_sorted (x : A) (l : list A) :
  StronglySorted (key_ge key) l ->
  StronglySorted (key_ge key) (insert_by_desc key x l).
Proof.
  induction 1 as [|y l Hs IH Hall]; simpl.
  - repeat constructor.
  - destruct (Z.ltb_spec (key x) (key y)).
    + constructor; [exact IH|].
      apply (Permutation_Forall (insert_by_desc_perm x l)).
      constructor; [unfold key_ge; lia | exact Hall].
    + constructor; [constructor; assumption|].
      constructor; [unfold key_ge; lia|].
      eapply Forall_impl; [|exact Hall]. unfold key_ge. intros; lia.
Qed.

Lemma sort_by_desc_sorted (l : list A) :
  StronglySorted (key_ge key) (sort_by_desc key l).
Proof.
  induction l; simpl; [constructor | apply insert_by_desc_sorted; assumption].
Qed.

(** Elements with the same key keep their order. *)
Lemma insert_by_desc_stable (s : Z) (x : A) (l : list A) :
  filter (fun a => key a =? s) (insert_by_desc key x l) =
  filter (fun a => key a =? s) (x :: l).
Proof.
  induction l as [|y l IH]; [reflexivity|].
  cbn [insert_by_desc]. destruct (Z.ltb_spec (key x) (key y)) as [Hlt | Hge];
    [|reflexivity].
  cbn [filter] in *. rewrite IH.
  destruct (Z.eqb_spec (key x) s), (Z.eqb_spec (key y) s);
    try reflexivity; lia.
Qed.

Lemma sort_by_desc_stable (s : Z) (l : list A) :
  filter (fun a => key a =? s) (sort_by_desc key l) =
  filter (fun a => key a =? s) l.
Proof.
  induction l as [|x l IH]; [reflexivity|].
  cbn [sort_by_desc fold_right]. rewrite insert_by_desc_stable.
  cbn [filter]. fold (sort_by_desc key l). rewrite IH. reflexivity.
Qed.

(** A first element that no other exceeds stays first. *)
Lemma sort_by_desc_head (x : A) (l : list A) :
  Forall (fun y => key y <= key x) l ->
  sort_by_desc key (x :: l) = x :: sort_by_desc key l.
Proof.
  intros Hall. cbn [sort_by_desc fold_right]. fold (sort_by_desc key l).
  assert (Hs : Forall (fun y => key y <= key x) (sort_by_desc key l))
    by (apply (Permutation_Forall (sort_by_desc_perm l)), Hall).
  destruct (sort_by_desc key l) as [|y l']; [reflexivity|]. simpl.
  inversion Hs; subst. destruct (Z.ltb_spec (key x) (key y)); [lia|].
  reflexivity.
Qed.

End SortFacts.

Lemma sort_desc_by (l : list TreeNode) : sort_desc l = sort_by_desc size l.
Proof.
  induction l as [|x l IH]; [reflexivity|]. simpl. rewrite IH.
  generalize (sort_by_desc size l). intros l'.
  induction l' as [|y l' IH']; [reflexivity|]. simpl. rewrite IH'.
  reflexivity.
Qed.

(** X8 — the children of a listed directory are the nodes the loop kept, each
    once, and children of equal size stand in the order in which
    [os.listdir] gave their entries. *)
Theorem children_order_is_stable (os : OS) (p : string) (m c : Z)
    (root : TreeNode) (entries : list string) :
  scan_directory os p m c = Ok root ->
  isfile os (abspath os p) = false -> c < m ->
  listdir os (abspath os p) = Done entries ->
  exists cs, children root = Some cs /\
    Permutation cs (retained os (scan_directory os) (abspath os p) m c
                      (visible entries)) /\
    forall s,
      filter (fun n => size n =? s) cs =
      filter (fun n => size n =? s)
             (retained os (scan_directory os) (abspath os p) m c
                (visible entries)).
Proof.
  intros H Hf Hc Hl. apply scan_directory_inv in H.
  destruct H as [Hf' | s _ Hge | s _ _ Hden | k _ _ Herr | ents _ _ Hdone];
    try congruence; try lia.
  rewrite Hdone in Hl. injection Hl as ->.
  eexists. split; [reflexivity|]. split.
  - apply Permutation_sym, sort_desc_perm.
  - intros s. rewrite sort_desc_by. apply sort_by_desc_stable.
Qed.

Lemma children_order_is_stable_witness :
  scan_directory (Demo.fs Demo.du_ok) "/r" 3 0 = Ok Demo.tree3 /\
  exists cs, children Demo.tree3 = Some cs /\
    filter (fun n => size n =? 100) cs =
    filter (fun n => size n =? 100)
           (retained (Demo.fs Demo.du_ok)
              (scan_directory (Demo.fs Demo.du_ok))
              (abspath (Demo.fs Demo.du_ok) "/r") 3 0
              (visible ["a"; ".hidden"; "b"])).
Proof.
  split; [vm_compute; reflexivity|].
  destruct (children_order_is_stable (Demo.fs Demo.du_ok) "/r" 3 0
              Demo.tree3 ["a"; ".hidden"; "b"]
              ltac:(vm_compute; reflexivity) ltac:(vm_compute; reflexivity)
              ltac:(lia) ltac:(vm_compute; reflexivity))
    as (cs & Hc & _ & Hs).
  exists cs. split; [exact Hc | apply Hs].
Defined.

(** ** The manual walk *)

Lemma sum_files_spec (os : OS) (root : string) (files : list string)
    (tot : Z) :
  sum_files os root files tot =
  tot + sum_Z (map (file_contribution os root) files).
Proof.
  revert tot. induction files as [|f rest IH]; intros tot; simpl.
  - lia.
  - unfold file_contribution at 1.
    destruct (islink os (join os root f)); simpl.
    + rewrite IH. lia.
    + destruct (getsize os (join os root f)); rewrite IH; lia.
Qed.

Lemma sum_Z_app (a b : list Z) : sum_Z (a ++ b) = sum_Z a + sum_Z b.
Proof. induction a; simpl; lia. Qed.

Lemma walk_total_spec (os : OS) (fuel : nat) (top : string) (tot : Z) :
  walk_total os fuel top tot =
  tot + sum_Z (flat_map (fun '(root, _, files) =>
                           map (file_contribution os root) files)
                        (walk os fuel top)).
Proof.
  unfold walk_total. generalize (walk os fuel top). intros l. revert tot.
  induction l as [|[[root dirs] files] l IH]; intros tot; simpl.
  - lia.
  - rewrite IH, sum_files_spec, sum_Z_app. lia.
Qed.

Lemma file_contribution_not_negative (os : OS) (root f : string) :
  sizes_not_negative os -> 0 <= file_contribution os root f.
Proof.
  intros [Hsz _]. unfold file_contribution.
  destruct (islink os (join os root f)); [lia|].
  destruct (getsize os (join os root f)) eqn:E; [eauto | lia].
Qed.

Lemma get_folder_size_walk_spec (os : OS) (fuel : nat) (p : string) :
  get_folder_size_walk os fuel p =
  sum_Z (flat_map (fun '(root, _, files) =>
                     map (file_contribution os root) files)
                  (walk os fuel p)).
Proof.
  change (get_folder_size_walk os fuel p) with (walk_total os fuel p 0).
  rewrite walk_total_spec. lia.
Qed.

(** X11 — [get_folder_size_walk] adds up, over the directories the walk visits,
    the sizes of their files: a file that is a link or whose size cannot be
    read adds 0 and does not stop the sum.  With file sizes that are not
    negative the result is not negative. *)
Theorem get_folder_size_walk_is_sum (os : OS) (fuel : nat) (p : string) :
  get_folder_size_walk os fuel p =
    sum_Z (flat_map (fun '(root, _, files) =>
                       map (file_contribution os root) files)
                    (walk os fuel p)) /\
  (sizes_not_negative os -> 0 <= get_folder_size_walk os fuel p).
Proof.
  pose proof (get_folder_size_walk_spec os fuel p) as H.
  split; [exact H|]. intros Hos. rewrite H.
  generalize (walk os fuel p). intros l.
  induction l as [|[[root dirs] files] l IH]; simpl; [lia|].
  rewrite sum_Z_app.
  assert (0 <= sum_Z (map (file_contribution os root) files)); [|lia].
  induction files as [|f files IHf]; simpl; [lia|].
  pose proof (file_contribution_not_negative os root f Hos). lia.
Qed.

Lemma get_folder_size_walk_is_sum_witness :
  sizes_not_negative (Demo.fs Demo.du_ok) /\
  0 <= get_folder_size_walk (Demo.fs Demo.du_ok) 4 "/r".
Proof.
  split; [exact demo_sizes_not_negative|].
  apply (proj2 (get_folder_size_walk_is_sum (Demo.fs Demo.du_ok) 4 "/r")
           demo_sizes_not_negative).
Defined.

(** ** The two ways of sizing a directory of plain files *)

Lemma retained_plain_files (os : OS) self q m c (entries : list string) :
  (forall e, In e entries ->
     islink os (join os q e) = false /\ isdir os (join os q e) = false) ->
  retained os self q m c entries =
  map (fun e => Node e (join os q e) (get_file_size os (join os q e))
                     File None) entries.
Proof.
  induction entries as [|e rest IH]; intros H; [reflexivity|].
  unfold retained in *. simpl. unfold scan_entry at 1.
  destruct (H e (or_introl eq_refl)) as [-> ->]. simpl.
  rewrite IH; [reflexivity|]. intros e' He'. apply H. right. exact He'.
Qed.

Lemma total_file_nodes (os : OS) (q : string) (entries : list string) :
  total (map (fun e => Node e (join os q e) (get_file_size os (join os q e))
                            File None) entries) =
  sum_Z (map (fun e => get_file_size os (join os q e)) entries).
Proof.
  induction entries as [|e rest IH]; simpl; [reflexivity | now rewrite IH].
Qed.

Lemma sum_Z_hidden_visible (f : string -> Z) (entries : list string) :
  sum_Z (map f entries) =
  sum_Z (map f (visible entries)) +
  sum_Z (map f (filter startswith_dot entries)).
Proof.
  unfold visible. induction entries as [|e rest IH]; simpl; [reflexivity|].
  destruct (startswith_dot e); simpl; lia.
Qed.

(** X12 — for a directory that holds only plain files (no link, no
    sub-directory), the walker reports the sizes of the entries that are not
    hidden, and the manual walk reports those and the hidden ones: the two
    differ by the sizes of the hidden files. *)
Theorem manual_walk_counts_hidden_files (os : OS) (p : string) (m c : Z)
    (fuel : nat) (entries : list string) :
  isfile os (abspath os p) = false -> c < m ->
  listdir os (abspath os p) = Done entries ->
  (forall e, In e entries ->
     islink os (join os (abspath os p) e) = false /\
     isdir os (join os (abspath os p) e) = false) ->
  exists root,
    scan_directory os p m c = Ok root /\
    size root =
      sum_Z (map (fun e => get_file_size os (join os (abspath os p) e))
                 (visible entries)) /\
    get_folder_size_walk os (S fuel) (abspath os p) =
      size root +
      sum_Z (map (fun e => get_file_size os (join os (abspath os p) e))
                 (filter startswith_dot entries)).
Proof.
  intros Hf Hc Hl Hplain. set (q := abspath os p) in *.
  assert (Hvis : forall e, In e (visible entries) ->
            islink os (join os q e) = false /\ isdir os (join os q e) = false).
  { intros e He. apply visible_In in He. apply Hplain, He. }
  assert (Hscan : scan_directory os p m c =
            Ok (Node (str_or (basename os q) q) q
                  (total (retained os (scan_directory os) q m c
                            (visible entries)))
                  Dir
                  (Some (sort_desc (retained os (scan_directory os) q m c
                                      (visible entries)))))).
  { rewrite scan_directory_eq. unfold scan_body. fold q. rewrite Hf.
    destruct (Z.geb_spec c m); [lia|]. rewrite Hl. fold (visible entries).
    rewrite scan_entries_spec by apply scan_directory_raises. reflexivity. }
  eexists. split; [exact Hscan|]. cbn [size].
  rewrite (retained_plain_files os _ q m c _ Hvis), total_file_nodes.
  split; [reflexivity|].
  rewrite (get_folder_size_walk_spec os (S fuel) q).
  simpl. rewrite Hl.
  assert (Hnodirs : filter (fun e => isdir os (join os q e)) entries = []).
  { clear - Hplain. induction entries as [|e rest IH]; [reflexivity|]. simpl.
    destruct (Hplain e (or_introl eq_refl)) as [_ ->].
    apply IH. intros e' He'. apply Hplain. right. exact He'. }
  assert (Hfiles : filter (fun e => negb (isdir os (join os q e))) entries
                   = entries).
  { clear - Hplain. induction entries as [|e rest IH]; [reflexivity|]. simpl.
    destruct (Hplain e (or_introl eq_refl)) as [_ ->]. simpl. f_equal.
    apply IH. intros e' He'. apply Hplain. right. exact He'. }
  rewrite Hnodirs, Hfiles. simpl. rewrite app_nil_r.
  rewrite <- (sum_Z_hidden_visible
                (fun e => get_file_size os (join os q e)) entries).
  f_equal. apply map_ext_in. intros e He. unfold file_contribution.
  destruct (Hplain e He) as [-> _]. reflexivity.
Qed.

Lemma manual_walk_counts_hidden_files_witness :
  exists root,
    scan_directory Demo.plain_fs "/h" 3 0 = Ok root /\
    size root = 10 /\
    get_folder_size_walk Demo.plain_fs 1 "/h" = size root + 7.
Proof.
  destruct (manual_walk_counts_hidden_files Demo.plain_fs "/h" 3 0 0
              ["x"; ".y"])
    as (root & Hs & Hsz & Hw).
  - vm_compute; reflexivity.
  - lia.
  - vm_compute; reflexivity.
  - intros e [<- | [<- | []]]; split; vm_compute; reflexivity.
  - exists root. split; [exact Hs|]. split; [exact Hsz | exact Hw].
Defined.

(** ** Names and URLs of the shortcuts *)

Lemma has_char_app (c : ascii) (a b : string) :
  has_char c (a ++ b) = has_char c a || has_char c b.
Proof.
  induction a as [|d a IH]; simpl; [reflexivity|].
  rewrite IH. apply orb_assoc.
Qed.

Lemma replace_char_app (old : ascii) (new a b : string) :
  replace_char old new (a ++ b) =
  (replace_char old new a ++ replace_char old new b)%string.
Proof.
  induction a as [|d a IH]; simpl; [reflexivity|].
  rewrite IH. destruct (Ascii.eqb d old); [|reflexivity].
  symmetry. apply PosixFacts.append_assoc.
Qed.

(** After the replacement the old character is gone, when the new text
    does not hold it. *)
Lemma replace_char_removes (old : ascii) (new s : string) :
  has_char old new = false -> has_char old (replace_char old new s) = false.
Proof.
  intros Hnew. induction s as [|d s IH]; simpl; [reflexivity|].
  destruct (Ascii.eqb d old) eqn:E.
  - rewrite has_char_app, Hnew, IH. reflexivity.
  - simpl. rewrite E, IH. reflexivity.
Qed.

(** A character that is in neither text is not brought in. *)
Lemma replace_char_keeps_out (c old : ascii) (new s : string) :
  has_char c new = false -> has_char c s = false ->
  has_char c (replace_char old new s) = false.
Proof.
  intros Hnew. induction s as [|d s IH]; simpl; [reflexivity|].
  intros H. apply orb_false_iff in H. destruct H as [Hd Hs].
  destruct (Ascii.eqb d old).
  - rewrite has_char_app, Hnew, (IH Hs). reflexivity.
  - simpl. rewrite Hd, (IH Hs). reflexivity.
Qed.

Lemma replace_char_absent (old : ascii) (new s : string) :
  has_char old s = false -> replace_char old new s = s.
Proof.
  induction s as [|d s IH]; simpl; [reflexivity|].
  intros H. apply orb_false_iff in H. destruct H as [-> Hs].
  rewrite (IH Hs). reflexivity.
Qed.

Lemma replace_char_one_length (old new : ascii) (s : string) :
  String.length (replace_char old (String new "") s) = String.length s.
Proof.
  induction s as [|d s IH]; simpl; [reflexivity|].
  destruct (Ascii.eqb d old); simpl; rewrite IH; reflexivity.
Qed.

(** X13 — the name part of a shortcut file holds neither a slash nor a colon,
    is as long as the item's name, and is the item's name when that holds
    neither. *)
Theorem safe_name_is_one_path_component (name : string) :
  has_char "/" (safe_name name) = false /\
  has_char ":" (safe_name name) = false /\
  String.length (safe_name name) = String.length name /\
  (has_char "/" name = false -> has_char ":" name = false ->
   safe_name name = name).
Proof.
  unfold safe_name. repeat split.
  - apply replace_char_keeps_out; [reflexivity|].
    apply replace_char_removes. reflexivity.
  - apply replace_char_removes. reflexivity.
  - rewrite !replace_char_one_length. reflexivity.
  - intros H1 H2. rewrite (replace_char_absent "/" "_" name H1).
    apply replace_char_absent, H2.
Qed.

Lemma safe_name_is_one_path_component_witness :
  has_char "/" "report.txt" = false /\ has_char ":" "report.txt" = false /\
  safe_name "report.txt" = "report.txt".
Proof.
  assert (H1 : has_char "/" "report.txt" = false) by reflexivity.
  assert (H2 : has_char ":" "report.txt" = false) by reflexivity.
  split; [exact H1 | split; [exact H2|]].
  apply (proj2 (proj2 (proj2 (safe_name_is_one_path_component "report.txt")))
           H1 H2).
Defined.

(** X14 — the URL of a shortcut holds no space and is [file://] followed by the
    path when the path holds none; the percent sign is not escaped, so a
    path with a space and the path with [%20] in its place get the same
    URL. *)
Theorem file_url_encodes_spaces_only (target_path : string) :
  has_char " " (file_url target_path) = false /\
  (has_char " " target_path = false ->
   file_url target_path = ("file://" ++ target_path)%string) /\
  (forall a b,
     file_url (a ++ " " ++ b) = file_url (a ++ "%20" ++ b)).
Proof.
  unfold file_url. repeat split.
  - rewrite has_char_app. simpl.
    apply replace_char_removes. reflexivity.
  - intros H. rewrite (replace_char_absent " " "%20" target_path H).
    reflexivity.
  - intros a b. rewrite !replace_char_app. reflexivity.
Qed.

Lemma file_url_encodes_spaces_only_witness :
  has_char " " "/r/a" = false /\ file_url "/r/a" = "file:///r/a".
Proof.
  assert (H : has_char " " "/r/a" = false) by reflexivity.
  split; [exact H|].
  apply (proj1 (proj2 (file_url_encodes_spaces_only "/r/a")) H).
Defined.

(** ** Escaping for AppleScript *)

(** X15 — read back, an escaped string is the string that was escaped: the
    quotes and backslashes of a path cannot end the AppleScript literal it
    is put in, and no two paths are escaped to the same text. *)
Theorem escape_applescript_string_round_trip (s : string) :
  unescape (escape_applescript_string s) = Some s.
Proof.
  unfold escape_applescript_string.
  induction s as [|c s IH]; [reflexivity|].
  cbn [replace_char].
  destruct (Ascii.eqb c backslash) eqn:Eb.
  - apply Ascii.eqb_eq in Eb. subst c.
    cbn [append replace_char].
    change (Ascii.eqb backslash dquote) with false. cbv iota.
    cbn [unescape].
    change (Ascii.eqb backslash backslash) with true. cbv iota.
    rewrite IH. reflexivity.
  - cbn [replace_char]. destruct (Ascii.eqb c dquote) eqn:Eq.
    + apply Ascii.eqb_eq in Eq. subst c.
      cbn [append unescape].
      change (Ascii.eqb backslash backslash) with true. cbv iota.
      rewrite IH. reflexivity.
    + cbn [unescape]. rewrite Eb, Eq, IH. reflexivity.
Qed.

(** ** The ranking of the shortcuts *)

Lemma slice_to_prefix {A : Type} (n : Z) (l : list A) :
  exists rest, l = slice_to n l ++ rest.
Proof.
  unfold slice_to. destruct (0 <=? n); eexists; symmetry; apply firstn_skipn.
Qed.

Lemma slice_to_length {A : Type} (n : Z) (l : list A) :
  0 <= n ->
  List.length (slice_to n l) = Nat.min (Z.to_nat n) (List.length l).
Proof.
  intros Hn. unfold slice_to. destruct (Z.leb_spec 0 n); [|lia].
  apply length_firstn.
Qed.

Lemma StronglySorted_app_inv {A : Type} (R : A -> A -> Prop)
    (a b : list A) :
  StronglySorted R (a ++ b) ->
  StronglySorted R a /\ forall x y, In x a -> In y b -> R x y.
Proof.
  induction a as [|h a IH]; simpl; intros H.
  - split; [constructor | intros x y []].
  - inversion H as [|? ? Hs Hall]; subst. destruct (IH Hs) as [Ha Hab].
    rewrite Forall_app in Hall. destruct Hall as [Hha Hhb].
    split; [constructor; assumption|].
    intros x y [<- | Hx] Hy; [|auto].
    rewrite Forall_forall in Hhb. auto.
Qed.

Lemma top_items_length (tree : TreeNode) (top_n : Z) :
  (List.length (top_items tree top_n) <= List.length (nodes tree))%nat /\
  (0 <= top_n ->
   List.length (top_items tree top_n) =
   Nat.min (Z.to_nat top_n) (List.length (nodes tree))).
Proof.
  unfold top_items.
  assert (Hlen : List.length (sort_by_desc item_size (flatten_tree tree None))
                 = List.length (nodes tree)).
  { rewrite <- (Permutation_length
                  (sort_by_desc_perm _ item_size (flatten_tree tree None))).
    rewrite flatten_tree_nodes. apply length_map. }
  split.
  - rewrite <- Hlen. unfold slice_to.
    destruct (0 <=? top_n); rewrite length_firstn; lia.
  - intros Hn. rewrite slice_to_length by exact Hn. rewrite Hlen.
    reflexivity.
Qed.

(** X16 — the items [generate_shortcuts] keeps are the records of nodes of the
    tree, largest first, and no item left out is larger than one that was
    kept; for a [top_n] that is not negative there are [top_n] of them, or
    all when the tree has fewer nodes. *)
Theorem top_items_are_the_largest (tree : TreeNode) (top_n : Z) :
  exists rest,
    Permutation (flatten_tree tree None) (top_items tree top_n ++ rest) /\
    StronglySorted (key_ge item_size) (top_items tree top_n) /\
    (forall i j, In i (top_items tree top_n) -> In j rest ->
                 item_size i >= item_size j) /\
    (forall i, In i (top_items tree top_n) ->
               exists d, In d (nodes tree) /\ i = item_of d) /\
    (0 <= top_n ->
     List.length (top_items tree top_n) =
     Nat.min (Z.to_nat top_n) (List.length (nodes tree))).
Proof.
  unfold top_items.
  set (sorted := sort_by_desc item_size (flatten_tree tree None)).
  destruct (slice_to_prefix top_n sorted) as (rest & Hrest).
  assert (Hs : StronglySorted (key_ge item_size)
                 (slice_to top_n sorted ++ rest))
    by (rewrite <- Hrest; apply sort_by_desc_sorted).
  assert (Hp : Permutation (flatten_tree tree None)
                           (slice_to top_n sorted ++ rest))
    by (rewrite <- Hrest; apply sort_by_desc_perm).
  apply StronglySorted_app_inv in Hs. destruct Hs as [Htop Hdom].
  exists rest. split; [exact Hp|]. split; [exact Htop|].
  split; [exact Hdom|]. split.
  - intros i Hi.
    assert (Hin : In i (flatten_tree tree None)).
    { apply (Permutation_in _ (Permutation_sym Hp)).
      apply in_or_app. left. exact Hi. }
    rewrite flatten_tree_nodes in Hin. apply in_map_iff in Hin.
    destruct Hin as (d & <- & Hd). eauto.
  - apply (proj2 (top_items_length tree top_n)).
Qed.

Lemma top_items_are_the_largest_witness :
  0 <= 2 /\ List.length (top_items Demo.tree3 2) = 2%nat.
Proof.
  split; [lia|].
  destruct (top_items_are_the_largest Demo.tree3 2)
    as (rest & _ & _ & _ & _ & Hlen).
  rewrite (Hlen ltac:(lia)). reflexivity.
Defined.

Lemma total_ge_member (cs : list TreeNode) (ch : TreeNode) :
  Forall (fun c => 0 <= size c) cs -> In ch cs -> size ch <= total cs.
Proof.
  induction 1 as [|x l Hx Hl IH]; simpl; intros Hin; [destruct Hin|].
  pose proof (total_not_negative l Hl).
  destruct Hin as [<- | Hin]; [lia | specialize (IH Hin); lia].
Qed.

(** In a tree whose nodes are as [scanned_node_local] says and have sizes
    that are not negative, no node is larger than the root. *)
Lemma local_sizes_bounded (os : OS) (t : TreeNode) :
  (forall d, In d (nodes t) ->
     (type d = File /\ children d = None /\
      exists q, size d = get_file_size os q) \/
     (type d = Dir /\ exists cs, children d = Some cs /\
      (size d = total cs \/
       (cs = [] /\ exists q, get_size_with_du os q = Ok (size d))))) ->
  (forall d, In d (nodes t) -> 0 <= size d) ->
  forall d, In d (nodes t) -> size d <= size t.
Proof.
  induction t as [nm p s k | nm p s k cs IH] using TreeNode_nested_ind;
    intros Hloc Hpos d Hd.
  - destruct Hd as [<- | []]. lia.
  - apply nodes_inv in Hd. destruct Hd as [-> | (ch & Hch & Hd)]; [lia|].
    unfold child_list in Hch. simpl in Hch.
    rewrite Forall_forall in IH.
    assert (Hdch : size d <= size ch).
    { apply (IH ch Hch); [| |exact Hd]; intros x Hx;
        [apply Hloc | apply Hpos]; eapply nodes_child; eauto. }
    assert (Hcht : size ch <= s).
    { destruct (Hloc _ (nodes_self _))
        as [(_ & Hc & _) | (_ & cs' & Hc & [Hsz | (Hnil & _)])];
        try discriminate; injection Hc as <-.
      - simpl in Hsz. rewrite Hsz. apply total_ge_member; [|exact Hch].
        apply Forall_forall. intros x Hx. apply Hpos.
        eapply nodes_child; [exact Hx | apply nodes_self].
      - subst cs. destruct Hch. }
    simpl. lia.
Qed.

(** X17 — when file sizes and the counts of [du] are not negative, no node of a
    scanned tree is larger than its root, and the root's record is the
    first of the items kept for the shortcuts as soon as one is asked
    for. *)
Theorem scan_root_ranks_first (os : OS) (p : string) (m c : Z)
    (root : TreeNode) (top_n : Z) :
  sizes_not_negative os ->
  scan_directory os p m c = Ok root ->
  (forall d, In d (nodes root) -> size d <= size root) /\
  (1 <= top_n -> exists rest, top_items root top_n = item_of root :: rest).
Proof.
  intros Hos H.
  assert (Hmax : forall d, In d (nodes root) -> size d <= size root).
  { apply (local_sizes_bounded os root).
    - intros d Hd. exact (scanned_node_local os p m c root d H Hd).
    - apply (local_sizes_not_negative os root Hos).
      intros d Hd. exact (scanned_node_local os p m c root d H Hd). }
  split; [exact Hmax|]. intros Hn.
  unfold top_items. rewrite flatten_tree_nodes.
  assert (Hnodes : exists l, nodes root = root :: l /\
                             forall d, In d l -> In d (nodes root)).
  { destruct root as [nm q s k [cs|]]; simpl; eexists; split;
      try reflexivity; intros d Hd; right; exact Hd. }
  destruct Hnodes as (l & Hl & Hsub). rewrite Hl. cbn [map].
  rewrite sort_by_desc_head.
  - unfold slice_to. destruct (Z.leb_spec 0 top_n); [|lia].
    destruct (Z.to_nat top_n) as [|k] eqn:E; [lia|]. simpl. eauto.
  - apply Forall_forall. intros i Hi. apply in_map_iff in Hi.
    destruct Hi as (d & <- & Hd). simpl. apply Hmax, Hsub, Hd.
Qed.

Lemma scan_root_ranks_first_witness :
  sizes_not_negative (Demo.fs Demo.du_ok) /\
  scan_directory (Demo.fs Demo.du_ok) "/r" 3 0 = Ok Demo.tree3 /\
  1 <= 2 /\
  exists rest, top_items Demo.tree3 2 = item_of Demo.tree3 :: rest.
Proof.
  split; [exact demo_sizes_not_negative|].
  split; [vm_compute; reflexivity|]. split; [lia|].
  apply (proj2 (scan_root_ranks_first (Demo.fs Demo.du_ok) "/r" 3 0
                  Demo.tree3 2 demo_sizes_not_negative
                  ltac:(vm_compute; reflexivity))).
  lia.
Defined.

(** ** The shortcut files *)

Lemma complete_files_app (a b : disk) :
  complete_files (a ++ b) = complete_files a ++ complete_files b.
Proof. apply filter_app. Qed.

Lemma shortcuts_loop_returned (io : ShortcutIO) (dir : string) :
  forall items i created files created' files',
  shortcuts_loop io dir i items created files = Returned created' files' ->
  exists new,
    files' = files ++ new /\
    created' = created + Z.of_nat (List.length (complete_files new)) /\
    (List.length new <= List.length items)%nat /\
    Forall (fun f => forall url, snd f = Some url ->
              exists item, In item items /\ url = file_url (item_path item))
           new.
Proof.
  induction items as [|item rest IH];
    intros i created files created' files' H; simpl in H.
  - injection H as <- <-. exists []. rewrite app_nil_r. simpl.
    repeat split; [lia | lia | constructor].
  - destruct (prefix_of io i (item_size item)) as [prefix|]; [|discriminate].
    unfold create_webloc_file in H.
    destruct (open_wb io _) as [e|].
    + destruct (IH _ _ _ _ _ H) as (new & -> & -> & Hlen & Hall).
      exists new. repeat split; [simpl; lia|].
      eapply Forall_impl; [|exact Hall]. simpl.
      intros f Hf url Hu. destruct (Hf url Hu) as (it & Hit & ->). eauto.
    + destruct (dump_plist io _ _) as [e|];
        destruct (IH _ _ _ _ _ H) as (new & -> & -> & Hlen & Hall).
      * eexists (_ :: new). rewrite <- app_assoc. simpl.
        split; [reflexivity|]. unfold holds_url at 1. simpl.
        split; [lia|]. split; [lia|]. constructor.
        -- simpl. intros url Hu. discriminate.
        -- eapply Forall_impl; [|exact Hall]. simpl.
           intros f Hf url Hu. destruct (Hf url Hu) as (it & Hit & ->).
           eauto.
      * eexists (_ :: new). rewrite <- app_assoc. simpl.
        split; [reflexivity|]. unfold holds_url at 1. simpl.
        split; [lia|]. split; [lia|]. constructor.
        -- simpl. intros url [= <-]. eauto.
        -- eapply Forall_impl; [|exact Hall]. simpl.
           intros f Hf url Hu. destruct (Hf url Hu) as (it & Hit & ->).
           eauto.
Qed.


(** X18 — when [generate_shortcuts] returns, the number it returns is the
    number of calls of [create_webloc_file] that wrote their file to the
    end: a file that [open] made and [plistlib.dump] did not fill stays in
    the directory and is not counted.  There are no more files than items
    were kept (so no more than nodes), the number returned is at most
    [top_n], and the URL in a file is that of the path of a kept item. *)
Theorem generate_shortcuts_counts_the_files (io : ShortcutIO)
    (tree : TreeNode) (dir : string) (top_n created : Z) (files : disk) :
  generate_shortcuts io tree dir top_n = Returned created files ->
  created = Z.of_nat (List.length (complete_files files)) /\
  (List.length (complete_files files) <= List.length files)%nat /\
  (List.length files <= List.length (top_items tree top_n))%nat /\
  (List.length files <= List.length (nodes tree))%nat /\
  (0 <= top_n -> created <= top_n) /\
  Forall (fun f => forall url, snd f = Some url ->
            exists item,
              In item (top_items tree top_n) /\
              url = file_url (item_path item)) files.
Proof.
  unfold generate_shortcuts. destruct (prepare io dir); [discriminate|].
  intros H. apply shortcuts_loop_returned in H.
  destruct H as (new & -> & -> & Hlen & Hall). simpl.
  destruct (top_items_length tree top_n) as [Hnodes Htop].
  pose proof (filter_length_le holds_url new) as Hle.
  unfold complete_files.
  repeat split; [exact Hle | lia | lia | | exact Hall].
  intros Hn. specialize (Htop Hn). lia.
Qed.

Lemma generate_shortcuts_counts_the_files_witness :
  generate_shortcuts Demo.io Demo.tree3 "/s" 5 =
    Returned 4 [("/s/folders/001_0MB_r.webloc", Some "file:///r");
                ("/s/folders/002_0MB_b.webloc", Some "file:///r/b");
                ("/s/folders/003_0MB_e.webloc", Some "file:///r/b/e");
                ("/s/files/004_0MB_f.webloc", Some "file:///r/b/e/f");
                ("/s/files/005_0MB_c.webloc", None)] /\
  4 <= 5.
Proof.
  assert (H : generate_shortcuts Demo.io Demo.tree3 "/s" 5 =
    Returned 4 [("/s/folders/001_0MB_r.webloc", Some "file:///r");
                ("/s/folders/002_0MB_b.webloc", Some "file:///r/b");
                ("/s/folders/003_0MB_e.webloc", Some "file:///r/b/e");
                ("/s/files/004_0MB_f.webloc", Some "file:///r/b/e/f");
                ("/s/files/005_0MB_c.webloc", None)])
    by (vm_compute; reflexivity).
  split; [exact H|].
  apply (proj1 (proj2 (proj2 (proj2 (proj2
           (generate_shortcuts_counts_the_files Demo.io Demo.tree3 "/s" 5 4
              _ H)))))).
  lia.
Defined.



(** ** Nothing is left out but what is hidden or a link *)




(** ** The depth of a scanned tree *)

(** X10 — a tree scanned from depth [c] with the limit [m] has no node more
    than [m - c] levels below its root, and none below the root when the
    limit is already reached. *)
Theorem scanned_tree_depth_is_bounded (os : OS) (p : string) (m c : Z)
    (root : TreeNode) :
  scan_directory os p m c = Ok root ->
  nodes_at (S (Z.to_nat (m - c))) root = [].
Proof.
  intros H.
  destruct (nodes_at (S (Z.to_nat (m - c))) root) as [|d l] eqn:E;
    [reflexivity|].
  destruct (nodes_at_succ (Z.to_nat (m - c)) root d) as (x & Hx & Hd);
    [rewrite E; left; reflexivity|].
  unfold child_list in Hd.
  destruct (nodes_at_scanned os p m c root x _ H Hx)
    as [[_ Hc] | (q & Hs)].
  - rewrite Hc in Hd. destruct Hd.
  - apply scan_directory_inv in Hs.
    destruct Hs; simpl in Hd; try contradiction; lia.
Qed.

Lemma scanned_tree_depth_is_bounded_witness :
  scan_directory (Demo.fs Demo.du_ok) "/r" 1 0 = Ok Demo.tree1 /\
  nodes_at 2 Demo.tree1 = [].
Proof.
  split; [vm_compute; reflexivity|].
  apply (scanned_tree_depth_is_bounded (Demo.fs Demo.du_ok) "/r" 1 0
           Demo.tree1 ltac:(vm_compute; reflexivity)).
Defined.

(** ** The walker with its progress lines *)

Section Progress.

Variable os : OS.
Variable rt : Runtime.




(** The loop lets no [OSError] out, whatever the recursive call does. *)
Lemma scan_entries_io_raises self q m c entries :
  forall children total_size dirs_count files_count r,
    scan_entries_io os self q m c entries
                    children total_size dirs_count files_count = Raises r ->
    raised_is_OSError r = false.
Proof.
  induction entries as [|e rest IH];
    intros children total_size dirs_count files_count r; simpl;
    [discriminate|].
  destruct (islink os (join os q e)); [apply IH|].
  destruct (isdir os (join os q e)); [|apply IH].
  destruct (self (join os q e) m (c + 1)) as [child | r']; [apply IH|].
  destruct (raised_is_OSError r') eqn:E; [apply IH|].
  intros [= <-]. exact E.
Qed.

End Progress.






(** X3 — an [OSError] leaves [scan_directory] only when it was raised in
    the call for the directory that was asked for, outside its loop: by
    [os.path.abspath], by one of that call's own progress lines, or by the
    estimator at the depth cutoff or after a permission error (and then it
    is the [OSError] of [subprocess.run]).  An [OSError] raised for an entry,
    at any depth below, never leaves. *)
Theorem scan_directory_io_raise_inv (os : OS) (rt : Runtime) (frames : nat)
    (p : string) (m c : Z) (r : raised) :
  scan_directory_io os rt frames p m c = Raises r ->
  raised_is_OSError r = true ->
  (exists k, abspath_error rt p = Some k /\ r = Known (OSError k)) \/
  (exists line, line_depth line = c /\ report rt line = Some r) \/
  (isfile os (abspath os p) = false /\
   (c >= m \/ listdir os (abspath os p) = Failed PermissionError) /\
   exists e, run_du os (abspath os p) = Raise e /\ r = Known e).
Proof.
  unfold scan_directory_io. intros H Hos.
  assert (Hbody : exists self, scan_body_io os rt self p m c = Raises r).
  { destruct (Z.to_nat (m - c)) as [|fuel];
      (destruct frames as [|frames];
       [simpl in H; injection H as <-; discriminate|]);
      simpl in H; eauto. }
  clear H. destruct Hbody as (self & H).
  unfold scan_body_io, printing in H.
  destruct (abspath_error rt p) as [k|] eqn:Ea.
  { injection H as <-. left. eauto. }
  destruct (report rt (Scanning c _)) as [r1|] eqn:E1.
  { injection H as ->. right. left. eexists. split; [|exact E1]. reflexivity. }
  destruct (isfile os (abspath os p)) eqn:Ef; [discriminate|].
  assert (Hdu : forall e, get_size_with_du os (abspath os p) = Raise e ->
                exists e', run_du os (abspath os p) = Raise e' /\
                           Known e = Known e').
  { intros e He. exists e. split; [|reflexivity].
    apply (get_size_with_du_raise_source os _ e He). }
  destruct (Z.geb_spec c m) as [Hc | Hc].
  { destruct (get_size_with_du os (abspath os p)) as [s | e] eqn:Ed.
    - destruct (report rt (MaxDepth c s)) as [r2|] eqn:E2; [|discriminate].
      injection H as ->. right. left. eexists. split; [|exact E2].
      reflexivity.
    - injection H as <-. right. right. split; [reflexivity|].
      split; [left; lia|]. apply Hdu. reflexivity. }
  destruct (listdir_value_error rt (abspath os p)).
  { injection H as <-. discriminate. }
  destruct (listdir os (abspath os p)) as [entries | []] eqn:El.
  - destruct (scan_entries_io os self (abspath os p) m c _ [] 0 0 0)
      as [[[[children total_size] dirs_count] files_count] | r'] eqn:Es.
    + destruct (report rt (Finished c dirs_count files_count total_size))
        as [r2|] eqn:E2; [|discriminate].
      injection H as ->. right. left. eexists. split; [|exact E2].
      reflexivity.
    + injection H as ->. apply scan_entries_io_raises in Es. congruence.
  - destruct (get_size_with_du os (abspath os p)) as [s | e] eqn:Ed.
    + destruct (report rt (PermissionDenied c s)) as [r2|] eqn:E2;
        [|discriminate].
      injection H as ->. right. left. eexists. split; [|exact E2].
      reflexivity.
    + injection H as <-. right. right. split; [reflexivity|].
      split; [right; reflexivity|]. apply Hdu. reflexivity.
  - destruct (report rt (ErrorReading c)) as [r2|] eqn:E2; [|discriminate].
    injection H as ->. right. left. eexists. split; [|exact E2]. reflexivity.
  - destruct (report rt (ErrorReading c)) as [r2|] eqn:E2; [|discriminate].
    injection H as ->. right. left. eexists. split; [|exact E2]. reflexivity.
Qed.

Lemma scan_directory_io_raise_inv_witness :
  scan_directory_io (Demo.fs Demo.du_missing) Demo.quiet_rt 2 "/r" 0 0 =
    Raises (Known (OSError FileNotFoundError)) /\
  exists e,
    run_du (Demo.fs Demo.du_missing)
           (abspath (Demo.fs Demo.du_missing) "/r") = Raise e /\
    Known (OSError FileNotFoundError) = Known e.
Proof.
  assert (H : scan_directory_io (Demo.fs Demo.du_missing) Demo.quiet_rt 2
                "/r" 0 0 = Raises (Known (OSError FileNotFoundError)))
    by (vm_compute; reflexivity).
  split; [exact H|].
  destruct (scan_directory_io_raise_inv (Demo.fs Demo.du_missing)
              Demo.quiet_rt 2 "/r" 0 0 _ H eq_refl)
    as [(k & Hk & _) | [(line & _ & Hline) | (_ & _ & He)]].
  - discriminate Hk.
  - discriminate Hline.
  - exact He.
Defined.
